(** * ol/style/Style: the style descriptor, its factories and the style
      function adapter

    A shallow embedding of [src/ol/style/Style.js].  JavaScript values are
    either primitives or references into a heap of objects; every function
    of the module is a computation in a state-and-exception monad over that
    heap and the module variable [defaultStyles]. *)

From Stdlib Require Import PrimFloat.
From stdpp Require Import base option list strings gmap.

(** ** Values and objects *)

(** References are indices into the heap. *)
Abbreviation loc := nat (only parsing).

Inductive value : Type :=
| VUndefined
| VNull
| VBool (b : bool)
| VNumber (x : float)
| VString (s : string)
| VRef (l : loc).

(** Function objects.  The first four are the function expressions and the
    function declaration of Style.js, with the variable each one closes
    over; [CNative] is a function supplied by the caller. *)
Inductive closure : Type :=
| CDefaultGeometry
| CFeatureGet (geometry : value)
| CFixedGeometry (geometry : value)
| CStyles (styles : value)
| CNative (id : nat).

(** Modelled from the spec: the geometry-type tags of ol/geom/GeometryType.js
    (not part of the sources at hand), the eight tags createEditingStyle
    uses as keys, pairwise distinct. *)
Inductive GeometryType : Type :=
| POINT | LINE_STRING | POLYGON | MULTI_POINT | MULTI_LINE_STRING
| MULTI_POLYGON | GEOMETRY_COLLECTION | CIRCLE.

Global Instance GeometryType_eq_dec : EqDecision GeometryType.
Proof. solve_decision. Defined.

Definition GeometryType_code (t : GeometryType) : nat :=
  match t with
  | POINT => 0 | LINE_STRING => 1 | POLYGON => 2 | MULTI_POINT => 3
  | MULTI_LINE_STRING => 4 | MULTI_POLYGON => 5
  | GEOMETRY_COLLECTION => 6 | CIRCLE => 7
  end.

Definition GeometryType_of_code (n : nat) : option GeometryType :=
  match n with
  | 0 => Some POINT | 1 => Some LINE_STRING | 2 => Some POLYGON
  | 3 => Some MULTI_POINT | 4 => Some MULTI_LINE_STRING
  | 5 => Some MULTI_POLYGON | 6 => Some GEOMETRY_COLLECTION
  | 7 => Some CIRCLE | _ => None
  end.

Global Instance GeometryType_countable : Countable GeometryType.
Proof.
  apply (inj_countable GeometryType_code GeometryType_of_code).
  by intros [].
Defined.

(** The fields of a Style instance, named as in the constructor. *)
Record Style : Type := mkStyle {
  geometry_ : value;
  geometryFunction_ : value;
  fill_ : value;
  image_ : value;
  renderer_ : value;
  stroke_ : value;
  text_ : value;
  zIndex_ : value
}.

(** Heap objects.  [OStyle], [OArray], [OFunction] and [OObject] are what
    Style.js itself builds.

    Modelled from the spec: the collaborators whose sources are not at hand.
    [OFill], [OStroke], [OCircle] and [OText] are the sub-style types
    (style/Fill.js, Stroke.js, Circle.js, Text.js) with the options Style.js
    passes to their constructors; [OGeometry] is a geometry value that may or
    may not expose [clone]; [OFeature] is a feature exposing [get] and
    [getGeometry]. *)
Inductive obj : Type :=
| OFunction (c : closure)
| OArray (elems : list value)
| OObject (props : gmap GeometryType value)
| OStyle (s : Style)
| OFill (color : value)
| OStroke (color width : value)
| OCircle (fill stroke radius : value)
| OText (text : value)
| OGeometry (clonable : bool) (flatCoordinates : list float)
| OFeature (geometry : value) (properties : gmap string value).

(** ** Module state and the monad *)

Record state : Type := mkState {
  heap : list obj;
  defaultStyles : value
}.

Inductive error : Type :=
| AssertionError (code : nat)
| TypeError
| RangeError.

Inductive result (A : Type) : Type :=
| Ok (a : A) (st : state)
| Throw (e : error) (st : state).
Arguments Ok {A} a st.
Arguments Throw {A} e st.

Definition M (A : Type) : Type := state -> result A.

Definition ret {A} (a : A) : M A := fun st => Ok a st.

Definition bind {A B} (m : M A) (k : A -> M B) : M B :=
  fun st => match m st with
            | Ok a st' => k a st'
            | Throw e st' => Throw e st'
            end.

Definition throw {A} (e : error) : M A := fun st => Throw e st.

Arguments bind {A B} m k st /.
Arguments ret {A} a st /.
Arguments throw {A} e st /.

Declare Scope js_scope.
Delimit Scope js_scope with js.
Notation "x <- m ;; k" := (bind m (fun x => k))
  (at level 100, m at next level, right associativity) : js_scope.
Notation "m ;;; k" := (bind m (fun _ => k))
  (at level 100, right associativity) : js_scope.
Open Scope js_scope.

(** [new]-style allocation: the fresh reference is the next free index. *)
Definition alloc (o : obj) : M loc :=
  fun st => Ok (length (heap st))
               (mkState (heap st ++ [o]) (defaultStyles st)).

Definition get_heap : M (list obj) := fun st => Ok (heap st) st.

Definition lookup_obj (h : list obj) (v : value) : option obj :=
  match v with
  | VRef l => h !! l
  | _ => None
  end.

Definition store (l : loc) (o : obj) : M unit :=
  fun st => Ok tt (mkState (<[l := o]> (heap st)) (defaultStyles st)).

Definition get_defaultStyles : M value := fun st => Ok (defaultStyles st) st.

Definition set_defaultStyles (v : value) : M unit :=
  fun st => Ok tt (mkState (heap st) v).

Arguments alloc o st /.
Arguments store l o st /.
Arguments get_heap st /.
Arguments get_defaultStyles st /.
Arguments set_defaultStyles v st /.

(** ** JavaScript primitives used by the module *)

(** ToBoolean. *)
Definition truthy (v : value) : bool :=
  match v with
  | VUndefined | VNull => false
  | VBool b => b
  | VNumber x => negb (is_zero x || is_nan x)
  | VString s => negb (String.eqb s "")
  | VRef _ => true
  end.

Definition is_undefined (v : value) : bool :=
  match v with VUndefined => true | _ => false end.

(** The [typeof] operator. *)
Definition typeof_in (h : list obj) (v : value) : string :=
  match v with
  | VUndefined => "undefined"
  | VNull => "object"
  | VBool _ => "boolean"
  | VNumber _ => "number"
  | VString _ => "string"
  | VRef l => match h !! l with
              | Some (OFunction _) => "function"
              | _ => "object"
              end
  end.

Definition typeof (v : value) : M string :=
  h <- get_heap ;; ret (typeof_in h v).

Definition new_function (c : closure) : M value :=
  l <- alloc (OFunction c) ;; ret (VRef l).

(** An array literal. *)
Definition new_array (elems : list value) : M value :=
  l <- alloc (OArray elems) ;; ret (VRef l).

Definition Array_isArray (v : value) : M bool :=
  h <- get_heap ;;
  ret (match lookup_obj h v with Some (OArray _) => true | _ => false end).

(** [v instanceof Style]. *)
Definition instanceof_Style (v : value) : M bool :=
  h <- get_heap ;;
  ret (match lookup_obj h v with Some (OStyle _) => true | _ => false end).

(** The function declaration [defaultGeometryFunction] is one function
    object, created when the module is loaded. *)
Definition defaultGeometryFunction : loc := 0.

Definition module_init : state :=
  mkState [OFunction CDefaultGeometry] VNull.

Definition loaded (st : state) : Prop :=
  heap st !! defaultGeometryFunction = Some (OFunction CDefaultGeometry).

(** ** The Style class *)

Definition read_Style (this : loc) : M Style :=
  h <- get_heap ;;
  match h !! this with
  | Some (OStyle s) => ret s
  | _ => throw TypeError
  end.

Definition write_Style (this : loc) (f : Style -> Style) : M unit :=
  s <- read_Style this ;; store this (OStyle (f s)).

Definition with_geometry_ (v : value) (s : Style) : Style :=
  mkStyle v (geometryFunction_ s) (fill_ s) (image_ s) (renderer_ s)
          (stroke_ s) (text_ s) (zIndex_ s).
Definition with_geometryFunction_ (v : value) (s : Style) : Style :=
  mkStyle (geometry_ s) v (fill_ s) (image_ s) (renderer_ s)
          (stroke_ s) (text_ s) (zIndex_ s).
Definition with_fill_ (v : value) (s : Style) : Style :=
  mkStyle (geometry_ s) (geometryFunction_ s) v (image_ s) (renderer_ s)
          (stroke_ s) (text_ s) (zIndex_ s).
Definition with_image_ (v : value) (s : Style) : Style :=
  mkStyle (geometry_ s) (geometryFunction_ s) (fill_ s) v (renderer_ s)
          (stroke_ s) (text_ s) (zIndex_ s).
Definition with_renderer_ (v : value) (s : Style) : Style :=
  mkStyle (geometry_ s) (geometryFunction_ s) (fill_ s) (image_ s) v
          (stroke_ s) (text_ s) (zIndex_ s).
Definition with_stroke_ (v : value) (s : Style) : Style :=
  mkStyle (geometry_ s) (geometryFunction_ s) (fill_ s) (image_ s)
          (renderer_ s) v (text_ s) (zIndex_ s).
Definition with_text_ (v : value) (s : Style) : Style :=
  mkStyle (geometry_ s) (geometryFunction_ s) (fill_ s) (image_ s)
          (renderer_ s) (stroke_ s) v (zIndex_ s).
Definition with_zIndex_ (v : value) (s : Style) : Style :=
  mkStyle (geometry_ s) (geometryFunction_ s) (fill_ s) (image_ s)
          (renderer_ s) (stroke_ s) (text_ s) v.

Definition getRenderer (this : loc) : M value :=
  s <- read_Style this ;; ret (renderer_ s).
Definition setRenderer (this : loc) (renderer : value) : M unit :=
  write_Style this (with_renderer_ renderer).
Definition getGeometry (this : loc) : M value :=
  s <- read_Style this ;; ret (geometry_ s).
Definition getGeometryFunction (this : loc) : M value :=
  s <- read_Style this ;; ret (geometryFunction_ s).
Definition getFill (this : loc) : M value :=
  s <- read_Style this ;; ret (fill_ s).
Definition setFill (this : loc) (fill : value) : M unit :=
  write_Style this (with_fill_ fill).
Definition getImage (this : loc) : M value :=
  s <- read_Style this ;; ret (image_ s).
Definition setImage (this : loc) (image : value) : M unit :=
  write_Style this (with_image_ image).
Definition getStroke (this : loc) : M value :=
  s <- read_Style this ;; ret (stroke_ s).
Definition setStroke (this : loc) (stroke : value) : M unit :=
  write_Style this (with_stroke_ stroke).
Definition getText (this : loc) : M value :=
  s <- read_Style this ;; ret (text_ s).
Definition setText (this : loc) (text : value) : M unit :=
  write_Style this (with_text_ text).
Definition getZIndex (this : loc) : M value :=
  s <- read_Style this ;; ret (zIndex_ s).
Definition setZIndex (this : loc) (zIndex : value) : M unit :=
  write_Style this (with_zIndex_ zIndex).

(** Style.prototype.setGeometry: the four-way dispatch on the argument,
    then the assignment of [geometry_]. *)
Definition setGeometry (this : loc) (geometry : value) : M unit :=
  t <- typeof geometry ;;
  (if String.eqb t "function" then
     write_Style this (with_geometryFunction_ geometry)
   else if String.eqb t "string" then
     f <- new_function (CFeatureGet geometry) ;;
     write_Style this (with_geometryFunction_ f)
   else if negb (truthy geometry) then
     write_Style this (with_geometryFunction_ (VRef defaultGeometryFunction))
   else if negb (is_undefined geometry) then
     f <- new_function (CFixedGeometry geometry) ;;
     write_Style this (with_geometryFunction_ f)
   else ret tt) ;;;
  write_Style this (with_geometry_ geometry).

(** The options record of the constructor; an absent key reads as
    [undefined]. *)
Module StyleOptions.
Record t : Type := mk {
  geometry : value;
  fill : value;
  image : value;
  renderer : value;
  stroke : value;
  text : value;
  zIndex : value
}.
Definition empty : t :=
  mk VUndefined VUndefined VUndefined VUndefined VUndefined VUndefined
     VUndefined.
End StyleOptions.

Definition or_null (v : value) : value :=
  if negb (is_undefined v) then v else VNull.

(** [new Style(opt_options)]: the instance is allocated, then the
    constructor body assigns its fields in source order. *)
Definition Style_new (opt_options : option StyleOptions.t) : M value :=
  let options := default StyleOptions.empty opt_options in
  this <- alloc (OStyle (mkStyle VUndefined VUndefined VUndefined VUndefined
                                 VUndefined VUndefined VUndefined VUndefined)) ;;
  write_Style this (with_geometry_ VNull) ;;;
  write_Style this (with_geometryFunction_ (VRef defaultGeometryFunction)) ;;;
  (if negb (is_undefined (StyleOptions.geometry options))
   then setGeometry this (StyleOptions.geometry options)
   else ret tt) ;;;
  write_Style this (with_fill_ (or_null (StyleOptions.fill options))) ;;;
  write_Style this (with_image_ (or_null (StyleOptions.image options))) ;;;
  write_Style this (with_renderer_ (or_null (StyleOptions.renderer options))) ;;;
  write_Style this (with_stroke_ (or_null (StyleOptions.stroke options))) ;;;
  write_Style this (with_text_ (or_null (StyleOptions.text options))) ;;;
  write_Style this (with_zIndex_ (StyleOptions.zIndex options)) ;;;
  ret (VRef this).

(** ** Collaborators *)

(** Modelled from the spec: the constructors of the sub-style types
    (style/Fill.js, Stroke.js and Circle.js are not part of the sources at
    hand).  Each stores the options it is given. *)
Definition Fill_new (color : value) : M value :=
  l <- alloc (OFill color) ;; ret (VRef l).
Definition Stroke_new (color width : value) : M value :=
  l <- alloc (OStroke color width) ;; ret (VRef l).
Definition CircleStyle_new (fill stroke radius : value) : M value :=
  l <- alloc (OCircle fill stroke radius) ;; ret (VRef l).

(** Modelled from the spec: the feature type (Feature.js is not part of the
    sources at hand) exposes [getGeometry()], a geometry or absent, and
    [get(propertyName)], a value or absent.  On anything that is not a
    feature the method call is a TypeError.  The key of [get] is a string
    wherever Style.js calls it: the resolver that does closes over an
    argument whose [typeof] is ['string']. *)
Definition Feature_getGeometry (feature : value) : M value :=
  h <- get_heap ;;
  match lookup_obj h feature with
  | Some (OFeature g _) => ret g
  | _ => throw TypeError
  end.

Definition Feature_get (feature key : value) : M value :=
  h <- get_heap ;;
  match lookup_obj h feature with
  | Some (OFeature _ props) =>
      ret (match key with
           | VString k => default VUndefined (props !! k)
           | _ => VUndefined
           end)
  | _ => throw TypeError
  end.

(** Modelled from the spec: [assert] of asserts.js (not part of the sources
    at hand) fails with an error carrying the given diagnostic code. *)
Definition assert (assertion : bool) (errorCode : nat) : M unit :=
  if assertion then ret tt else throw (AssertionError errorCode).

(** Calling a function object with a list of arguments. *)
Definition arg (n : nat) (args : list value) : value :=
  default VUndefined (args !! n).

Section Call.
(** The behaviour of the functions the caller supplied. *)
Variable native : nat -> list value -> M value.

Definition call (f : value) (args : list value) : M value :=
  h <- get_heap ;;
  match lookup_obj h f with
  | Some (OFunction c) =>
      match c with
      | CDefaultGeometry => Feature_getGeometry (arg 0 args)
      | CFeatureGet geometry => Feature_get (arg 0 args) geometry
      | CFixedGeometry geometry => ret geometry
      | CStyles styles => ret styles
      | CNative id => native id args
      end
  | _ => throw TypeError
  end.
End Call.

(** ** Cloning *)

(** Truthiness of the property read [v.clone] on a truthy [v]. *)
Definition exposes_clone (h : list obj) (v : value) : bool :=
  match lookup_obj h v with
  | Some (OStyle _) | Some (OFill _) | Some (OStroke _ _)
  | Some (OCircle _ _ _) | Some (OText _) | Some (OGeometry true _) => true
  | _ => false
  end.

(** Style.prototype.clone, with the method call [x.clone()] on the parts
    left as the parameter [clone_of]. *)
Definition Style_clone_with (clone_of : value -> M value) (this : loc)
  : M value :=
  geometry <- getGeometry this ;;
  h <- get_heap ;;
  geometry <- (if truthy geometry && exposes_clone h geometry
               then clone_of geometry else ret geometry) ;;
  c <- getFill this ;;
  fill <- (if truthy c then x <- getFill this ;; clone_of x
           else ret VUndefined) ;;
  c <- getImage this ;;
  image <- (if truthy c then x <- getImage this ;; clone_of x
            else ret VUndefined) ;;
  c <- getStroke this ;;
  stroke <- (if truthy c then x <- getStroke this ;; clone_of x
             else ret VUndefined) ;;
  c <- getText this ;;
  text <- (if truthy c then x <- getText this ;; clone_of x
           else ret VUndefined) ;;
  zIndex <- getZIndex this ;;
  Style_new (Some {| StyleOptions.geometry := geometry;
                     StyleOptions.fill := fill;
                     StyleOptions.image := image;
                     StyleOptions.renderer := VUndefined;
                     StyleOptions.stroke := stroke;
                     StyleOptions.text := text;
                     StyleOptions.zIndex := zIndex |}).

(** Modelled from the spec: a parameter of a sub-style is copied with it,
    so that the copy is independent: an array (a colour) is duplicated,
    any other parameter is an immutable value. *)
Definition copy_param (v : value) : M value :=
  h <- get_heap ;;
  match lookup_obj h v with
  | Some (OArray es) => new_array es
  | _ => ret v
  end.

Definition clone_present (clone_of : value -> M value) (v : value) : M value :=
  if truthy v then clone_of v else ret VUndefined.

(** The method call [v.clone()], by dynamic dispatch on the object [v]
    refers to.  [fuel] bounds the depth of nested calls; running out of it
    is the engine's stack overflow.

    Modelled from the spec: [clone] of the sub-style types and of geometry
    values (not part of the sources at hand) produces an independent copy
    with equivalent parameters; a circle copies its own fill and stroke. *)
Fixpoint invoke_clone (fuel : nat) (v : value) : M value :=
  match fuel with
  | 0 => throw RangeError
  | S fuel' =>
      h <- get_heap ;;
      match v, lookup_obj h v with
      | VRef l, Some (OStyle _) => Style_clone_with (invoke_clone fuel') l
      | _, Some (OFill color) =>
          color' <- copy_param color ;; Fill_new color'
      | _, Some (OStroke color width) =>
          color' <- copy_param color ;; Stroke_new color' width
      | _, Some (OCircle fill stroke radius) =>
          fill' <- clone_present (invoke_clone fuel') fill ;;
          stroke' <- clone_present (invoke_clone fuel') stroke ;;
          CircleStyle_new fill' stroke' radius
      | _, Some (OText text) =>
          l <- alloc (OText text) ;; ret (VRef l)
      | _, Some (OGeometry true flatCoordinates) =>
          l <- alloc (OGeometry true flatCoordinates) ;; ret (VRef l)
      | _, _ => throw TypeError
      end
  end.

(** Style.prototype.clone. *)
Definition clone (fuel : nat) (this : loc) : M value :=
  Style_clone_with (invoke_clone fuel) this.

(** ** toFunction *)

Definition toFunction (obj : value) : M value :=
  t <- typeof obj ;;
  if String.eqb t "function" then ret obj
  else
    isArray <- Array_isArray obj ;;
    styles <- (if isArray then ret obj
               else
                 isStyle <- instanceof_Style obj ;;
                 assert isStyle 41 ;;;
                 new_array [obj]) ;;
    new_function (CStyles styles).

(** ** createDefaultStyle *)

Arguments VNumber x%_float.

Definition createDefaultStyle (feature resolution : value) : M value :=
  cached <- get_defaultStyles ;;
  (if negb (truthy cached) then
     fill <- Fill_new (VString "rgba(255,255,255,0.4)") ;;
     stroke <- Stroke_new (VString "#3399CC") (VNumber 1.25) ;;
     image <- CircleStyle_new fill stroke (VNumber 5) ;;
     style <- Style_new (Some {| StyleOptions.geometry := VUndefined;
                                 StyleOptions.fill := fill;
                                 StyleOptions.image := image;
                                 StyleOptions.renderer := VUndefined;
                                 StyleOptions.stroke := stroke;
                                 StyleOptions.text := VUndefined;
                                 StyleOptions.zIndex := VUndefined |}) ;;
     styles <- new_array [style] ;;
     set_defaultStyles styles
   else ret tt) ;;;
  get_defaultStyles.

(** ** createEditingStyle *)

Definition new_object : M value :=
  l <- alloc (OObject ∅) ;; ret (VRef l).

(** [o[k]] *)
Definition get_prop (o : value) (k : GeometryType) : M value :=
  h <- get_heap ;;
  match lookup_obj h o with
  | Some (OObject props) => ret (default VUndefined (props !! k))
  | _ => throw TypeError
  end.

(** [o[k] = v] *)
Definition set_prop (o : value) (k : GeometryType) (v : value) : M unit :=
  h <- get_heap ;;
  match o, lookup_obj h o with
  | VRef l, Some (OObject props) => store l (OObject (<[k := v]> props))
  | _, _ => throw TypeError
  end.

(** Array.prototype.concat: a new array; array arguments are spread. *)
Definition spread (h : list obj) (v : value) : list value :=
  match lookup_obj h v with
  | Some (OArray es) => es
  | _ => [v]
  end.

Definition Array_concat (this : value) (args : list value) : M value :=
  h <- get_heap ;;
  match lookup_obj h this with
  | Some (OArray es) => new_array (es ++ List.concat (map (spread h) args))
  | _ => throw TypeError
  end.

Definition only_fill (fill : value) : StyleOptions.t :=
  {| StyleOptions.geometry := VUndefined; StyleOptions.fill := fill;
     StyleOptions.image := VUndefined; StyleOptions.renderer := VUndefined;
     StyleOptions.stroke := VUndefined; StyleOptions.text := VUndefined;
     StyleOptions.zIndex := VUndefined |}.

Definition only_stroke (stroke : value) : StyleOptions.t :=
  {| StyleOptions.geometry := VUndefined; StyleOptions.fill := VUndefined;
     StyleOptions.image := VUndefined; StyleOptions.renderer := VUndefined;
     StyleOptions.stroke := stroke; StyleOptions.text := VUndefined;
     StyleOptions.zIndex := VUndefined |}.

Definition image_and_zIndex (image zIndex : value) : StyleOptions.t :=
  {| StyleOptions.geometry := VUndefined; StyleOptions.fill := VUndefined;
     StyleOptions.image := image; StyleOptions.renderer := VUndefined;
     StyleOptions.stroke := VUndefined; StyleOptions.text := VUndefined;
     StyleOptions.zIndex := zIndex |}.

Definition createEditingStyle : M value :=
  styles <- new_object ;;
  white <- new_array [VNumber 255; VNumber 255; VNumber 255; VNumber 1] ;;
  blue <- new_array [VNumber 0; VNumber 153; VNumber 255; VNumber 1] ;;
  let width := 3%float in
  (color <- new_array [VNumber 255; VNumber 255; VNumber 255; VNumber 0.5] ;;
   fill <- Fill_new color ;;
   style <- Style_new (Some (only_fill fill)) ;;
   a <- new_array [style] ;;
   set_prop styles POLYGON a) ;;;
  (a <- get_prop styles POLYGON ;; set_prop styles MULTI_POLYGON a) ;;;
  (stroke <- Stroke_new white (VNumber (width + 2)) ;;
   style1 <- Style_new (Some (only_stroke stroke)) ;;
   stroke <- Stroke_new blue (VNumber width) ;;
   style2 <- Style_new (Some (only_stroke stroke)) ;;
   a <- new_array [style1; style2] ;;
   set_prop styles LINE_STRING a) ;;;
  (a <- get_prop styles LINE_STRING ;; set_prop styles MULTI_LINE_STRING a) ;;;
  (a <- get_prop styles POLYGON ;;
   b <- get_prop styles LINE_STRING ;;
   c <- Array_concat a [b] ;;
   set_prop styles CIRCLE c) ;;;
  (fill <- Fill_new blue ;;
   stroke <- Stroke_new white (VNumber (width / 2)) ;;
   image <- CircleStyle_new fill stroke (VNumber (width * 2)) ;;
   style <- Style_new (Some (image_and_zIndex image (VNumber infinity))) ;;
   a <- new_array [style] ;;
   set_prop styles POINT a) ;;;
  (a <- get_prop styles POINT ;; set_prop styles MULTI_POINT a) ;;;
  (a <- get_prop styles POLYGON ;;
   b <- get_prop styles LINE_STRING ;;
   c <- get_prop styles POINT ;;
   d <- Array_concat a [b; c] ;;
   set_prop styles GEOMETRY_COLLECTION d) ;;;
  ret styles.

(** Array.prototype.push, the caller's way of changing an array in place. *)
Definition Array_push (a : value) (x : value) : M unit :=
  h <- get_heap ;;
  match a, lookup_obj h a with
  | VRef l, Some (OArray es) => store l (OArray (es ++ [x]))
  | _, _ => throw TypeError
  end.

(** What setGeometry installs for the argument [x] in the heap [h]: the
    resolver [f] and the function objects [new] created for it. *)
Inductive derived (h : list obj) (x : value) : value -> list obj -> Prop :=
| derived_function :
    typeof_in h x = "function" -> derived h x x []
| derived_string (name : string) :
    x = VString name ->
    derived h x (VRef (length h)) [OFunction (CFeatureGet x)]
| derived_default :
    typeof_in h x <> "function" -> typeof_in h x <> "string" ->
    truthy x = false ->
    derived h x (VRef defaultGeometryFunction) []
| derived_fixed :
    typeof_in h x <> "function" -> typeof_in h x <> "string" ->
    truthy x = true ->
    derived h x (VRef (length h)) [OFunction (CFixedGeometry x)].

(** The instance while the constructor runs [setGeometry]. *)
Definition Style_started : Style :=
  mkStyle VNull (VRef defaultGeometryFunction) VUndefined VUndefined
          VUndefined VUndefined VUndefined VUndefined.

(** The instance the constructor leaves, given the resolver [f]. *)
Definition Style_built (options : StyleOptions.t) (f : value) : Style :=
  mkStyle (or_null (StyleOptions.geometry options)) f
          (or_null (StyleOptions.fill options))
          (or_null (StyleOptions.image options))
          (or_null (StyleOptions.renderer options))
          (or_null (StyleOptions.stroke options))
          (or_null (StyleOptions.text options))
          (StyleOptions.zIndex options).

(** A loaded module with one descriptor, a geometry and a feature. *)
Definition st_sample : state :=
  mkState [OFunction CDefaultGeometry;
           OStyle (Style_built StyleOptions.empty
                               (VRef defaultGeometryFunction));
           OGeometry true [1; 2]%float;
           OFeature (VRef 2) {[ "" := VString "other" ]};
           OFeature (VRef 2) ∅]
          VNull.

(** ** Sequences of setter calls *)

Inductive setter : Type :=
| SetRenderer (renderer : value)
| SetFill (fill : value)
| SetImage (image : value)
| SetStroke (stroke : value)
| SetText (text : value)
| SetGeometry (geometry : value)
| SetZIndex (zIndex : value).

Definition apply_setter (this : loc) (c : setter) : M unit :=
  match c with
  | SetRenderer renderer => setRenderer this renderer
  | SetFill fill => setFill this fill
  | SetImage image => setImage this image
  | SetStroke stroke => setStroke this stroke
  | SetText text => setText this text
  | SetGeometry geometry => setGeometry this geometry
  | SetZIndex zIndex => setZIndex this zIndex
  end.

Fixpoint apply_setters (this : loc) (cs : list setter) : M unit :=
  match cs with
  | [] => ret tt
  | c :: cs' => apply_setter this c ;;; apply_setters this cs'
  end.

(** The invariant of a descriptor at [this]: the module's default resolver
    is in place and the descriptor's resolver is a function. *)
Definition has_resolver (st : state) (this : loc) : Prop :=
  loaded st
  /\ exists s, heap st !! this = Some (OStyle s)
               /\ typeof_in (heap st) (geometryFunction_ s) = "function".

(** ** What the factories build *)

(** The objects one call of createDefaultStyle allocates, the first of them
    at the reference [n]. *)
Definition default_objects (n : nat) : list obj :=
  [OFill (VString "rgba(255,255,255,0.4)");
   OStroke (VString "#3399CC") (VNumber 1.25);
   OCircle (VRef n) (VRef (n + 1)) (VNumber 5);
   OStyle (mkStyle VNull (VRef defaultGeometryFunction) (VRef n)
                   (VRef (n + 2)) VNull (VRef (n + 1)) VNull VUndefined);
   OArray [VRef (n + 3)]].

(** The objects one call of createEditingStyle allocates, the first of them
    (the mapping itself) at the reference [n]. *)
Definition editing_objects (n : nat) : list obj :=
  [OObject (<[GEOMETRY_COLLECTION := VRef (n + 18)]>
            (<[MULTI_POINT := VRef (n + 17)]>
             (<[POINT := VRef (n + 17)]>
              (<[CIRCLE := VRef (n + 12)]>
               (<[MULTI_LINE_STRING := VRef (n + 11)]>
                (<[LINE_STRING := VRef (n + 11)]>
                 (<[MULTI_POLYGON := VRef (n + 6)]>
                  (<[POLYGON := VRef (n + 6)]> ∅))))))));
   OArray [VNumber 255; VNumber 255; VNumber 255; VNumber 1];
   OArray [VNumber 0; VNumber 153; VNumber 255; VNumber 1];
   OArray [VNumber 255; VNumber 255; VNumber 255; VNumber 0.5];
   OFill (VRef (n + 3));
   OStyle (mkStyle VNull (VRef defaultGeometryFunction) (VRef (n + 4))
                   VNull VNull VNull VNull VUndefined);
   OArray [VRef (n + 5)];
   OStroke (VRef (n + 1)) (VNumber 5);
   OStyle (mkStyle VNull (VRef defaultGeometryFunction) VNull
                   VNull VNull (VRef (n + 7)) VNull VUndefined);
   OStroke (VRef (n + 2)) (VNumber 3);
   OStyle (mkStyle VNull (VRef defaultGeometryFunction) VNull
                   VNull VNull (VRef (n + 9)) VNull VUndefined);
   OArray [VRef (n + 8); VRef (n + 10)];
   OArray [VRef (n + 5); VRef (n + 8); VRef (n + 10)];
   OFill (VRef (n + 2));
   OStroke (VRef (n + 1)) (VNumber 1.5);
   OCircle (VRef (n + 13)) (VRef (n + 14)) (VNumber 6);
   OStyle (mkStyle VNull (VRef defaultGeometryFunction) VNull
                   (VRef (n + 15)) VNull VNull VNull (VNumber infinity));
   OArray [VRef (n + 16)];
   OArray [VRef (n + 5); VRef (n + 8); VRef (n + 10); VRef (n + 16)]].

(** ** The content of a value

    Two references are equal in content when the objects they lead to,
    read through the heap, are alike: [content_of] unfolds a value into the
    tree of what is reachable from it, down to [fuel] levels. *)

Definition all_GeometryTypes : list GeometryType :=
  [POINT; LINE_STRING; POLYGON; MULTI_POINT; MULTI_LINE_STRING;
   MULTI_POLYGON; GEOMETRY_COLLECTION; CIRCLE].

Definition closure_parts (c : closure) : list value :=
  match c with
  | CFeatureGet v | CFixedGeometry v | CStyles v => [v]
  | CDefaultGeometry | CNative _ => []
  end.

Definition closure_shell (c : closure) : closure :=
  match c with
  | CFeatureGet _ => CFeatureGet VUndefined
  | CFixedGeometry _ => CFixedGeometry VUndefined
  | CStyles _ => CStyles VUndefined
  | CDefaultGeometry => CDefaultGeometry
  | CNative id => CNative id
  end.

(** The values an object holds, in a fixed order. *)
Definition parts_of (o : obj) : list value :=
  match o with
  | OFunction c => closure_parts c
  | OArray elems => elems
  | OObject props =>
      map (fun k => default VUndefined (props !! k)) all_GeometryTypes
  | OStyle s =>
      [geometry_ s; geometryFunction_ s; fill_ s; image_ s; renderer_ s;
       stroke_ s; text_ s; zIndex_ s]
  | OFill color => [color]
  | OStroke color width => [color; width]
  | OCircle fill stroke radius => [fill; stroke; radius]
  | OText text => [text]
  | OGeometry _ _ => []
  | OFeature geometry properties =>
      geometry :: map snd (map_to_list properties)
  end.

(** The kind of an object: the object with the values it holds left out. *)
Definition shell_of (o : obj) : obj :=
  match o with
  | OFunction c => OFunction (closure_shell c)
  | OArray elems => OArray []
  | OObject props => OObject ∅
  | OStyle s => OStyle (mkStyle VUndefined VUndefined VUndefined VUndefined
                                VUndefined VUndefined VUndefined VUndefined)
  | OFill _ => OFill VUndefined
  | OStroke _ _ => OStroke VUndefined VUndefined
  | OCircle _ _ _ => OCircle VUndefined VUndefined VUndefined
  | OText _ => OText VUndefined
  | OGeometry clonable flatCoordinates => OGeometry clonable flatCoordinates
  | OFeature _ properties => OFeature VUndefined (const VUndefined <$> properties)
  end.

#[local] Unset Elimination Schemes.
Inductive content : Type :=
| KValue (v : value)
| KObject (shell : obj) (parts : list content)
| KDangling
| KDeeper.
#[local] Set Elimination Schemes.

Fixpoint content_of (fuel : nat) (h : list obj) (v : value) : content :=
  match v with
  | VRef l =>
      match fuel with
      | 0 => KDeeper
      | S fuel' =>
          match h !! l with
          | Some o => KObject (shell_of o) (map (content_of fuel' h) (parts_of o))
          | None => KDangling
          end
      end
  | _ => KValue v
  end.

(** ** Heap growth and the contract of [clone] *)

(** [st'] keeps every object of [st] as it was (and the cache). *)
Definition extends (st st' : state) : Prop :=
  defaultStyles st' = defaultStyles st
  /\ forall l o, heap st !! l = Some o -> heap st' !! l = Some o.

(** [o'] is a copy of [o]: an object of the same class with the same plain
    parameters (the coordinates of a geometry, the width of a stroke, the
    radius of a circle, a text, the zIndex of a descriptor).  The parts that
    are themselves copied with the object (colours, the fill and stroke of a
    circle, the parts of a descriptor) are not compared here. *)
Definition copy_of (o o' : obj) : Prop :=
  match o, o' with
  | OFunction c, OFunction c' => c = c'
  | OArray es, OArray es' => es = es'
  | OObject ps, OObject ps' => ps = ps'
  | OStyle s, OStyle s' => zIndex_ s' = zIndex_ s
  | OFill _, OFill _ => True
  | OStroke _ w, OStroke _ w' => w' = w
  | OCircle _ _ r, OCircle _ _ r' => r' = r
  | OText t, OText t' => t' = t
  | OGeometry c cs, OGeometry c' cs' => c' = c /\ cs' = cs
  | OFeature g ps, OFeature g' ps' => g' = g /\ ps' = ps
  | _, _ => False
  end.

(** What a successful [v.clone()] guarantees: nothing that existed is
    touched, and the result is a new object, a copy of the one [v] refers
    to. *)
Definition clone_post (st : state) (v v' : value) (st' : state) : Prop :=
  extends st st'
  /\ exists l l' o o',
      v = VRef l /\ v' = VRef l'
      /\ heap st !! l = Some o /\ heap st' !! l' = Some o'
      /\ copy_of o o'
      /\ length (heap st) <= l'.

Definition clone_contract (clone_of : value -> M value) : Prop :=
  forall v st v' st', clone_of v st = Ok v' st' -> clone_post st v v' st'.

(** A part [v] of a descriptor in [st] and the part [v'] of its clone in
    [st']: an absent part stays absent; a present one is a new object, a
    copy of the original, and writing to it leaves the original as it was. *)
Definition part_cloned (st st' : state) (v v' : value) : Prop :=
  if truthy v then
    exists l l' o',
      v = VRef l /\ v' = VRef l'
      /\ length (heap st) <= l'
      /\ heap st' !! l' = Some o'
      /\ forall o, heap st !! l = Some o ->
                   copy_of o o'
                   /\ forall x, <[l' := x]> (heap st') !! l = Some o
  else v' = VNull.

(** The geometry spec [g] of a descriptor in [st] and the spec [g'] of its
    clone in [st']: copied when [g] exposes [clone], the same value
    otherwise (an [undefined] spec reads as [null] in the clone). *)
Definition geometry_cloned (st st' : state) (g g' : value) : Prop :=
  if truthy g && exposes_clone (heap st) g then
    exists l l' o',
      g = VRef l /\ g' = VRef l'
      /\ length (heap st) <= l'
      /\ heap st' !! l' = Some o'
      /\ forall o, heap st !! l = Some o -> copy_of o o'
  else g' = or_null g.

(** Style.prototype.clone without the repeated reads of [this]: the parts
    of the instance [s] are cloned in turn and handed to the constructor. *)
Definition clone_parts (clone_of : value -> M value) (s : Style) : M value :=
  h <- get_heap ;;
  geometry <- (if truthy (geometry_ s) && exposes_clone h (geometry_ s)
               then clone_of (geometry_ s) else ret (geometry_ s)) ;;
  fill <- clone_present clone_of (fill_ s) ;;
  image <- clone_present clone_of (image_ s) ;;
  stroke <- clone_present clone_of (stroke_ s) ;;
  text <- clone_present clone_of (text_ s) ;;
  Style_new (Some {| StyleOptions.geometry := geometry;
                     StyleOptions.fill := fill;
                     StyleOptions.image := image;
                     StyleOptions.renderer := VUndefined;
                     StyleOptions.stroke := stroke;
                     StyleOptions.text := text;
                     StyleOptions.zIndex := zIndex_ s |}).

(** Well-formed parts of a descriptor: a sub-style slot is absent or holds
    a fill, a stroke, a text, or a circle whose own fill and stroke are
    absent or a fill, stroke or text; the geometry spec exposes [clone]
    only if it is a clonable geometry. *)
Definition leaf_style (h : list obj) (v : value) : bool :=
  match lookup_obj h v with
  | Some (OFill _) | Some (OStroke _ _) | Some (OText _) => true
  | _ => false
  end.

Definition absent_or (p : value -> bool) (v : value) : bool :=
  negb (truthy v) || p v.

Definition sub_style (h : list obj) (v : value) : bool :=
  match lookup_obj h v with
  | Some (OFill _) | Some (OStroke _ _) | Some (OText _) => true
  | Some (OCircle fill stroke _) =>
      absent_or (leaf_style h) fill && absent_or (leaf_style h) stroke
  | _ => false
  end.

Definition clonable_geometry (h : list obj) (v : value) : bool :=
  match lookup_obj h v with
  | Some (OGeometry true _) => true
  | _ => false
  end.

Definition geometry_spec_ok (h : list obj) (v : value) : bool :=
  negb (truthy v && exposes_clone h v) || clonable_geometry h v.

Definition well_formed (h : list obj) (s : Style) : bool :=
  geometry_spec_ok h (geometry_ s)
  && absent_or (sub_style h) (fill_ s)
  && absent_or (sub_style h) (image_ s)
  && absent_or (sub_style h) (stroke_ s)
  && absent_or (sub_style h) (text_ s).

(** A loaded module whose descriptor at 7 has a clonable geometry, a fill, a
    circle image, a stroke, a custom renderer and a zIndex. *)
Definition st_styled : state :=
  mkState [OFunction CDefaultGeometry;
           OGeometry true [1; 2]%float;
           OFill (VString "red");
           OStroke (VString "blue") (VNumber 2);
           OCircle (VRef 2) (VRef 3) (VNumber 4);
           OFunction (CNative 0);
           OFunction (CFixedGeometry (VRef 1));
           OStyle (mkStyle (VRef 1) (VRef 6) (VRef 2) (VRef 4) (VRef 5)
                           (VRef 3) VNull (VNumber 3))]
          VNull.

(** ** The fields behind the accessors *)

Inductive field : Type :=
| FRenderer | FGeometry | FFill | FImage | FStroke | FText | FZIndex.

(** The field a setter assigns and the value it is given. *)
Definition field_of (c : setter) : field :=
  match c with
  | SetRenderer _ => FRenderer
  | SetFill _ => FFill
  | SetImage _ => FImage
  | SetStroke _ => FStroke
  | SetText _ => FText
  | SetGeometry _ => FGeometry
  | SetZIndex _ => FZIndex
  end.

Definition argument_of (c : setter) : value :=
  match c with
  | SetRenderer v | SetFill v | SetImage v | SetStroke v | SetText v
  | SetGeometry v | SetZIndex v => v
  end.

(** The getter of a field. *)
Definition get_field (f : field) : loc -> M value :=
  match f with
  | FRenderer => getRenderer
  | FGeometry => getGeometry
  | FFill => getFill
  | FImage => getImage
  | FStroke => getStroke
  | FText => getText
  | FZIndex => getZIndex
  end.

(** The option of the constructor that configures a field. *)
Definition option_of (f : field) (options : StyleOptions.t) : value :=
  match f with
  | FRenderer => StyleOptions.renderer options
  | FGeometry => StyleOptions.geometry options
  | FFill => StyleOptions.fill options
  | FImage => StyleOptions.image options
  | FStroke => StyleOptions.stroke options
  | FText => StyleOptions.text options
  | FZIndex => StyleOptions.zIndex options
  end.

(** The options with the [geometry] key left out. *)
Definition without_geometry (options : StyleOptions.t) : StyleOptions.t :=
  {| StyleOptions.geometry := VUndefined;
     StyleOptions.fill := StyleOptions.fill options;
     StyleOptions.image := StyleOptions.image options;
     StyleOptions.renderer := StyleOptions.renderer options;
     StyleOptions.stroke := StyleOptions.stroke options;
     StyleOptions.text := StyleOptions.text options;
     StyleOptions.zIndex := StyleOptions.zIndex options |}.

(** The field as stored in an instance. *)
Definition field_value (f : field) (s : Style) : value :=
  match f with
  | FRenderer => renderer_ s
  | FGeometry => geometry_ s
  | FFill => fill_ s
  | FImage => image_ s
  | FStroke => stroke_ s
  | FText => text_ s
  | FZIndex => zIndex_ s
  end.

(** A loaded module whose descriptor at 1 has an image that exposes no
    [clone]: an array. *)
Definition st_unclonable : state :=
  mkState [OFunction CDefaultGeometry;
           OStyle (mkStyle VNull (VRef 0) VNull (VRef 2) VNull VNull VNull
                           VUndefined);
           OArray []]
          VNull.

(** * Reasoning about the heap *)

Lemma lookup_ext (h l : list obj) (k : nat) :
  (h ++ l) !! (length h + k) = l !! k.
Proof. rewrite lookup_app_r; [f_equal; lia | lia]. Qed.

Lemma lookup_ext0 (h l : list obj) : (h ++ l) !! length h = l !! 0.
Proof. rewrite <- (lookup_ext h l 0). f_equal. lia. Qed.

Lemma insert_ext (h l : list obj) (k : nat) (o : obj) :
  <[length h + k := o]> (h ++ l) = h ++ <[k := o]> l.
Proof. rewrite insert_app_r_alt; [do 2 f_equal; lia | lia]. Qed.

(** ** Style instances: field writes, setGeometry and the constructor *)

Lemma read_Style_ok (st : state) (this : loc) (s : Style) :
  heap st !! this = Some (OStyle s) -> read_Style this st = Ok s st.
Proof. intros H. unfold read_Style. cbn. by rewrite H. Qed.

Lemma write_Style_ok (st : state) (this : loc) (s : Style) (f : Style -> Style) :
  heap st !! this = Some (OStyle s) ->
  write_Style this f st
  = Ok tt (mkState (<[this := OStyle (f s)]> (heap st)) (defaultStyles st)).
Proof.
  intros H. unfold write_Style. cbn [bind].
  by rewrite (read_Style_ok _ _ _ H).
Qed.

(** The focused form of a heap: the object at [this] is shown, the objects
    allocated since are the list [ext]. *)
Lemma write_Style_focused (h ext : list obj) (d : value) (this : loc)
      (s : Style) (f : Style -> Style) :
  this < length h ->
  write_Style this f (mkState (<[this := OStyle s]> h ++ ext) d)
  = Ok tt (mkState (<[this := OStyle (f s)]> h ++ ext) d).
Proof.
  intros Hlt. erewrite write_Style_ok; cbn.
  - by rewrite insert_app_l, list_insert_insert_eq by (by rewrite length_insert).
  - rewrite lookup_app_l by (by rewrite length_insert).
    by apply list_lookup_insert_eq.
Qed.

Lemma setGeometry_focused (h ext : list obj) (d : value) (this : loc)
      (s : Style) (x : value) :
  this < length h ->
  exists f new,
    setGeometry this x (mkState (<[this := OStyle s]> h ++ ext) d)
    = Ok tt (mkState (<[this := OStyle (with_geometry_ x
                                          (with_geometryFunction_ f s))]> h
                      ++ ext ++ new) d)
    /\ derived (<[this := OStyle s]> h ++ ext) x f new.
Proof.
  intros Hlt. unfold setGeometry, typeof, new_function. cbn.
  set (H := <[this := OStyle s]> h ++ ext).
  destruct (String.eqb (typeof_in H x) "function") eqn:Efun.
  { exists x, []. apply String.eqb_eq in Efun. subst H.
    rewrite write_Style_focused by done. cbn.
    rewrite write_Style_focused by done. rewrite app_nil_r.
    split; [done | by constructor]. }
  apply String.eqb_neq in Efun.
  destruct (String.eqb (typeof_in H x) "string") eqn:Estr.
  { exists (VRef (length H)), [OFunction (CFeatureGet x)].
    apply String.eqb_eq in Estr. subst H. cbn.
    rewrite <- app_assoc.
    rewrite write_Style_focused by done. cbn.
    rewrite write_Style_focused by done.
    split; [done |].
    destruct x as [| | | | name |l]; try discriminate Estr.
    - by econstructor.
    - cbn in Estr. repeat case_match; discriminate. }
  apply String.eqb_neq in Estr.
  destruct (truthy x) eqn:Etruthy; cbn.
  - exists (VRef (length H)), [OFunction (CFixedGeometry x)].
    assert (is_undefined x = false) as -> by (by destruct x).
    subst H. cbn. rewrite <- app_assoc.
    rewrite write_Style_focused by done. cbn.
    rewrite write_Style_focused by done.
    split; [done | by constructor].
  - exists (VRef defaultGeometryFunction), []. subst H.
    rewrite write_Style_focused by done. cbn.
    rewrite write_Style_focused by done. rewrite app_nil_r.
    split; [done | by constructor].
Qed.

Lemma setGeometry_spec (st : state) (this : loc) (s : Style) (x : value) :
  heap st !! this = Some (OStyle s) ->
  exists f new,
    setGeometry this x st
    = Ok tt (mkState (<[this := OStyle (with_geometry_ x
                                          (with_geometryFunction_ f s))]>
                        (heap st) ++ new) (defaultStyles st))
    /\ derived (heap st) x f new.
Proof.
  intros H. destruct st as [h d]. cbn in *.
  destruct (setGeometry_focused h [] d this s x) as (f & new & Heq & Hd).
  { by eapply lookup_lt_Some. }
  rewrite app_nil_r, list_insert_id in Heq, Hd by done.
  by exists f, new.
Qed.

Lemma insert_at_end (h : list obj) (o o' : obj) (ext : list obj) :
  <[length h := o']> (h ++ [o]) ++ ext = h ++ o' :: ext.
Proof.
  rewrite insert_app_r_alt by lia. rewrite Nat.sub_diag. cbn.
  by rewrite <- app_assoc.
Qed.

Lemma Style_new_spec (opt_options : option StyleOptions.t) (st : state) :
  let options := default StyleOptions.empty opt_options in
  exists f new,
    Style_new opt_options st
    = Ok (VRef (length (heap st)))
         (mkState (heap st ++ OStyle (Style_built options f) :: new)
                  (defaultStyles st))
    /\ (if is_undefined (StyleOptions.geometry options)
        then f = VRef defaultGeometryFunction /\ new = []
        else derived (heap st ++ [OStyle Style_started])
                     (StyleOptions.geometry options) f new).
Proof.
  destruct st as [h d]. unfold Style_new. cbn zeta.
  generalize (default StyleOptions.empty opt_options). intros options.
  cbn [bind alloc heap defaultStyles].
  set (blank := OStyle (mkStyle VUndefined VUndefined VUndefined VUndefined
                          VUndefined VUndefined VUndefined VUndefined)).
  set (this := length h).
  assert (this < length (h ++ [blank])) as Hlt
      by (rewrite length_app; cbn; lia).
  rewrite <- (app_nil_r (h ++ [blank])).
  rewrite <- (list_insert_id (h ++ [blank]) this blank)
    by (subst this; by rewrite list_lookup_middle).
  subst blank.
  rewrite write_Style_focused by done. cbn [with_geometry_].
  rewrite write_Style_focused by done.
  cbn -[setGeometry write_Style or_null].
  change (with_geometryFunction_ _ (with_geometry_ VNull _))
    with Style_started.
  destruct (is_undefined (StyleOptions.geometry options)) eqn:Eg;
    cbn -[setGeometry write_Style or_null].
  - exists (VRef defaultGeometryFunction), [].
    repeat (rewrite write_Style_focused by done;
            cbn -[setGeometry write_Style or_null]).
    split; [| done]. subst this. rewrite insert_at_end.
    assert (or_null (StyleOptions.geometry options) = VNull) as Hg
        by (unfold or_null; by rewrite Eg).
    unfold Style_built. rewrite Hg. reflexivity.
  - destruct (setGeometry_focused _ [] d this
                Style_started (StyleOptions.geometry options) Hlt)
      as (f & new & Heq & Hd).
    exists f, new. rewrite Heq.
    repeat (rewrite write_Style_focused by done;
            cbn -[setGeometry write_Style or_null]).
    subst this. rewrite insert_at_end in Hd.
    split; [| done]. rewrite insert_at_end.
    assert (or_null (StyleOptions.geometry options)
            = StyleOptions.geometry options) as Hg
        by (unfold or_null; by rewrite Eg).
    unfold Style_built. rewrite Hg. reflexivity.
Qed.

Lemma getGeometryFunction_ok (st : state) (this : loc) (s : Style) :
  heap st !! this = Some (OStyle s) ->
  getGeometryFunction this st = Ok (geometryFunction_ s) st.
Proof.
  intros H. unfold getGeometryFunction. cbn [bind].
  by rewrite (read_Style_ok _ _ _ H).
Qed.

Lemma getGeometry_ok (st : state) (this : loc) (s : Style) :
  heap st !! this = Some (OStyle s) ->
  getGeometry this st = Ok (geometry_ s) st.
Proof.
  intros H. unfold getGeometry. cbn [bind].
  by rewrite (read_Style_ok _ _ _ H).
Qed.

Lemma getRenderer_ok (st : state) (this : loc) (s : Style) :
  heap st !! this = Some (OStyle s) ->
  getRenderer this st = Ok (renderer_ s) st.
Proof.
  intros H. unfold getRenderer. cbn [bind].
  by rewrite (read_Style_ok _ _ _ H).
Qed.

(** The heap after a method has rewritten the instance at [this] and
    allocated the objects [new]. *)
Lemma lookup_rewritten (h new : list obj) (this : loc) (o o' : obj) :
  h !! this = Some o ->
  (<[this := o']> h ++ new) !! this = Some o'.
Proof.
  intros H. apply lookup_lt_Some in H.
  rewrite lookup_app_l by (by rewrite length_insert).
  by apply list_lookup_insert_eq.
Qed.

Lemma lookup_kept (h new : list obj) (this l : loc) (o o' : obj) :
  l <> this -> h !! l = Some o ->
  (<[this := o']> h ++ new) !! l = Some o.
Proof.
  intros Hne H.
  rewrite lookup_app_l
    by (rewrite length_insert; by eapply lookup_lt_Some).
  by rewrite list_lookup_insert_ne.
Qed.

Lemma lookup_new (h new : list obj) (this : loc) (o' : obj) (k : nat) :
  (<[this := o']> h ++ new) !! (length h + k) = new !! k.
Proof.
  pose proof (lookup_ext (<[this := o']> h) new k) as H.
  by rewrite length_insert in H.
Qed.

Lemma function_kept (h new : list obj) (this l : loc) (s s' : Style)
      (c : closure) :
  h !! this = Some (OStyle s) -> h !! l = Some (OFunction c) ->
  (<[this := OStyle s']> h ++ new) !! l = Some (OFunction c).
Proof.
  intros Hs Hc. eapply lookup_kept; [| done]. intros ->. congruence.
Qed.

Lemma typeof_function (h : list obj) (v : value) :
  typeof_in h v = "function" <->
  exists l c, v = VRef l /\ h !! l = Some (OFunction c).
Proof.
  split.
  - destruct v as [| | | | |l]; cbn; try discriminate.
    destruct (h !! l) as [[]|] eqn:E; try discriminate. eauto.
  - intros (l & c & -> & H). cbn. by rewrite H.
Qed.

(** Whatever setGeometry installs is a function object afterwards. *)
Lemma derived_is_function (h new : list obj) (this : loc) (s s' : Style)
      (x f : value) :
  h !! defaultGeometryFunction = Some (OFunction CDefaultGeometry) ->
  h !! this = Some (OStyle s) ->
  derived h x f new ->
  typeof_in (<[this := OStyle s']> h ++ new) f = "function".
Proof.
  intros Hd Hs D. apply typeof_function. destruct D as [Hf|name ->|_ _ _|_ _ _].
  - apply typeof_function in Hf as (l & c & -> & Hl).
    exists l, c. split; [done |]. by eapply function_kept.
  - eexists _, _. split; [done |].
    rewrite <- (Nat.add_0_r (length h)). by rewrite lookup_new.
  - eexists _, _. split; [done |]. by eapply function_kept.
  - eexists _, _. split; [done |].
    rewrite <- (Nat.add_0_r (length h)). by rewrite lookup_new.
Qed.

Lemma call_function (native : nat -> list value -> M value) (st : state)
      (l : loc) (c : closure) (args : list value) :
  heap st !! l = Some (OFunction c) ->
  call native (VRef l) args st
  = match c with
    | CDefaultGeometry => Feature_getGeometry (arg 0 args) st
    | CFeatureGet geometry => Feature_get (arg 0 args) geometry st
    | CFixedGeometry geometry => Ok geometry st
    | CStyles styles => Ok styles st
    | CNative id => native id args st
    end.
Proof. intros H. unfold call. cbn. rewrite H. by destruct c. Qed.

(** * The geometry resolver *)

Lemma setGeometry_result (st : state) (this : loc) (s : Style) (x : value) :
  heap st !! this = Some (OStyle s) ->
  exists st' f new,
    setGeometry this x st = Ok tt st'
    /\ derived (heap st) x f new
    /\ heap st' = <[this := OStyle (with_geometry_ x
                                     (with_geometryFunction_ f s))]> (heap st)
                  ++ new
    /\ defaultStyles st' = defaultStyles st
    /\ heap st' !! this
       = Some (OStyle (with_geometry_ x (with_geometryFunction_ f s))).
Proof.
  intros H. destruct (setGeometry_spec st this s x H) as (f & new & Heq & D).
  eexists _, f, new. split; [exact Heq |]. cbn.
  repeat split; try done. by eapply lookup_rewritten.
Qed.

(** C1 (amended): setGeometry derives the resolver when it is called, by the
    shape of its argument.  A function is installed as it is; a string
    installs a resolver returning [feature.get] of that string; a falsy
    argument that is not a string installs the default resolver, which
    returns [feature.getGeometry()]; any other argument installs a resolver
    that ignores its arguments and returns that argument. *)
Theorem setGeometry_derives_resolver
        (native : nat -> list value -> M value)
        (st : state) (this : loc) (s : Style) (x : value) :
  loaded st ->
  heap st !! this = Some (OStyle s) ->
  exists st' f,
    setGeometry this x st = Ok tt st'
    /\ getGeometryFunction this st' = Ok f st'
    /\ (typeof_in (heap st) x = "function" -> f = x)
    /\ (forall name, x = VString name ->
        forall args,
          call native f args st'
          = Feature_get (arg 0 args) (VString name) st')
    /\ (truthy x = false -> typeof_in (heap st) x <> "string" ->
        f = VRef defaultGeometryFunction
        /\ forall args,
            call native f args st' = Feature_getGeometry (arg 0 args) st')
    /\ (truthy x = true -> typeof_in (heap st) x <> "function" ->
        typeof_in (heap st) x <> "string" ->
        forall args, call native f args st' = Ok x st').
Proof.
  intros Hl Hs.
  destruct (setGeometry_result st this s x Hs)
    as (st' & f & new & Heq & D & Hh & _ & Hthis).
  exists st', f. split; [done |].
  split; [by rewrite (getGeometryFunction_ok _ _ _ Hthis) |].
  split; [| split; [| split]].
  - intros Hf. destruct D as [_|name ->|Hn _ _|Hn _ _]; try done.
  - intros name -> args.
    destruct D as [Hf|name' _|_ Hn _|_ Hn _]; try done.
    assert (heap st' !! length (heap st)
            = Some (OFunction (CFeatureGet (VString name)))) as Hc
        by (rewrite Hh, <- (Nat.add_0_r (length (heap st)));
            by rewrite lookup_new).
    by rewrite (call_function _ _ _ _ args Hc).
  - intros Ht Hn.
    assert (f = VRef defaultGeometryFunction) as ->.
    { destruct D as [Hf|name ->|_ _ _|_ _ Ht']; try done; try congruence.
      apply typeof_function in Hf as (l & c & -> & _). discriminate. }
    split; [done |]. intros args.
    assert (heap st' !! defaultGeometryFunction
            = Some (OFunction CDefaultGeometry)) as Hc
        by (rewrite Hh; by eapply function_kept).
    by rewrite (call_function _ _ _ _ args Hc).
  - intros Ht Hnf Hns args.
    destruct D as [Hf|name ->|_ _ Ht'|_ _ _]; try done; try congruence.
    assert (heap st' !! length (heap st)
            = Some (OFunction (CFixedGeometry x))) as Hc
        by (rewrite Hh, <- (Nat.add_0_r (length (heap st)));
            by rewrite lookup_new).
    by rewrite (call_function _ _ _ _ args Hc).
Qed.

Lemma setGeometry_derives_resolver_witness :
  exists st' f,
    setGeometry 1 (VString "labelPoint") st_sample = Ok tt st'
    /\ getGeometryFunction 1 st' = Ok f st'.
Proof.
  destruct (setGeometry_derives_resolver
              (fun _ _ => ret VUndefined) st_sample 1
              (Style_built StyleOptions.empty (VRef defaultGeometryFunction))
              (VString "labelPoint") eq_refl eq_refl)
    as (st' & f & H1 & H2 & _).
  by exists st', f.
Defined.

(** C1 as first stated fails on the empty string: it is falsy, and
    setGeometry installs a property lookup for it, not the default resolver.
    On a feature whose property [""] is ["other"] the installed resolver
    returns ["other"], where the default resolver returns the feature's
    geometry. *)
Lemma setGeometry_falsy_string_not_default :
  truthy (VString "") = false
  /\ exists st' f,
      setGeometry 1 (VString "") st_sample = Ok tt st'
      /\ getGeometryFunction 1 st' = Ok f st'
      /\ f <> VRef defaultGeometryFunction
      /\ call (fun _ _ => ret VUndefined) f [VRef 3] st'
         = Ok (VString "other") st'
      /\ Feature_getGeometry (VRef 3) st' = Ok (VRef 2) st'.
Proof.
  split; [reflexivity |].
  eexists _, _. split; [vm_compute; reflexivity |].
  split; [vm_compute; reflexivity |].
  split; [discriminate |].
  split; vm_compute; reflexivity.
Qed.

(** C4: after [setGeometry(x)] the getter returns exactly [x], for every
    [x]; the same call overwrites the stored spec and the resolver together,
    the resolver being the one derived from [x], and leaves the other
    fields as they were.  The heap after the call is the heap before it
    with the instance rewritten in place and the function object made for
    the resolver, if any, appended: the resolver refers to that object, and
    in a loaded module it is a function of the heap after the call.  The
    cache of default styles is as before. *)
Theorem setGeometry_getGeometry (st : state) (this : loc) (s : Style)
        (x : value) :
  heap st !! this = Some (OStyle s) ->
  exists st' f new,
    setGeometry this x st = Ok tt st'
    /\ getGeometry this st' = Ok x st'
    /\ getGeometryFunction this st' = Ok f st'
    /\ derived (heap st) x f new
    /\ heap st' !! this
       = Some (OStyle (mkStyle x f (fill_ s) (image_ s) (renderer_ s)
                               (stroke_ s) (text_ s) (zIndex_ s)))
    /\ heap st'
       = <[this := OStyle (mkStyle x f (fill_ s) (image_ s) (renderer_ s)
                                   (stroke_ s) (text_ s) (zIndex_ s))]>
           (heap st) ++ new
    /\ defaultStyles st' = defaultStyles st
    /\ (loaded st -> typeof_in (heap st') f = "function").
Proof.
  intros Hs.
  destruct (setGeometry_result st this s x Hs)
    as (st' & f & new & Heq & D & Hh & Hd & Hthis).
  exists st', f, new. split; [done |].
  split; [by rewrite (getGeometry_ok _ _ _ Hthis) |].
  split; [by rewrite (getGeometryFunction_ok _ _ _ Hthis) |].
  split; [done |]. split; [done |]. split; [done |]. split; [done |].
  intros Hl. rewrite Hh. by eapply derived_is_function.
Qed.

Lemma setGeometry_getGeometry_witness :
  exists st', setGeometry 1 (VRef 2) st_sample = Ok tt st'
              /\ getGeometry 1 st' = Ok (VRef 2) st'.
Proof.
  destruct (setGeometry_getGeometry st_sample 1
              (Style_built StyleOptions.empty (VRef defaultGeometryFunction))
              (VRef 2) eq_refl)
    as (st' & f & new & H1 & H2 & _).
  by exists st'.
Defined.

(** * The resolver is always present *)

Lemma field_write_keeps_resolver (st : state) (this : loc)
      (f : Style -> Style) :
  (forall s, geometryFunction_ (f s) = geometryFunction_ s) ->
  has_resolver st this ->
  exists st', write_Style this f st = Ok tt st' /\ has_resolver st' this.
Proof.
  intros Hf (Hl & s & Hs & Ht).
  rewrite (write_Style_ok _ _ _ _ Hs). eexists. split; [done |].
  apply typeof_function in Ht as (l & c & Hg & Hc).
  split.
  - unfold loaded in *. cbn. rewrite <- (app_nil_r (<[_ := _]> _)).
    by eapply function_kept.
  - exists (f s). cbn. split.
    + rewrite <- (app_nil_r (<[_ := _]> _)). by eapply lookup_rewritten.
    + rewrite Hf, Hg. apply typeof_function. exists l, c. split; [done |].
      rewrite <- (app_nil_r (<[_ := _]> _)). by eapply function_kept.
Qed.

Lemma setGeometry_keeps_resolver (st : state) (this : loc) (x : value) :
  has_resolver st this ->
  exists st', setGeometry this x st = Ok tt st' /\ has_resolver st' this.
Proof.
  intros (Hl & s & Hs & Ht).
  destruct (setGeometry_result st this s x Hs)
    as (st' & f & new & Heq & D & Hh & _ & Hthis).
  exists st'. split; [done |]. split.
  - unfold loaded. rewrite Hh. by eapply function_kept.
  - eexists. split; [exact Hthis |]. cbn. rewrite Hh.
    by eapply derived_is_function.
Qed.

Lemma apply_setter_keeps_resolver (st : state) (this : loc) (c : setter) :
  has_resolver st this ->
  exists st', apply_setter this c st = Ok tt st' /\ has_resolver st' this.
Proof.
  destruct c; cbn; try (by apply field_write_keeps_resolver).
  apply setGeometry_keeps_resolver.
Qed.

Lemma apply_setters_keep_resolver (cs : list setter) (st : state)
      (this : loc) :
  has_resolver st this ->
  exists st', apply_setters this cs st = Ok tt st' /\ has_resolver st' this.
Proof.
  revert st. induction cs as [|c cs IH]; intros st Hinv; cbn.
  - by exists st.
  - destruct (apply_setter_keeps_resolver st this c Hinv) as (st1 & -> & H1).
    by apply IH.
Qed.

Lemma Style_new_has_resolver (opt_options : option StyleOptions.t)
      (st : state) :
  loaded st ->
  exists st',
    Style_new opt_options st = Ok (VRef (length (heap st))) st'
    /\ has_resolver st' (length (heap st))
    /\ (is_undefined (StyleOptions.geometry
                        (default StyleOptions.empty opt_options)) = true ->
        getGeometryFunction (length (heap st)) st'
        = Ok (VRef defaultGeometryFunction) st').
Proof.
  intros Hl. destruct (Style_new_spec opt_options st) as (f & new & Heq & D).
  cbn zeta in *. revert Heq D.
  generalize (default StyleOptions.empty opt_options). intros options Heq D.
  eexists. split; [exact Heq |].
  assert (forall o, (heap st ++ o :: new) !! length (heap st) = Some o)
    as Hthis by (intros o; by rewrite list_lookup_middle).
  assert (forall o, (heap st ++ o :: new) !! defaultGeometryFunction
                    = Some (OFunction CDefaultGeometry)) as Hdef.
  { intros o. rewrite lookup_app_l; [done |]. by eapply lookup_lt_Some. }
  split; [split |].
  - apply Hdef.
  - eexists. split; [apply Hthis |]. cbn.
    destruct (is_undefined (StyleOptions.geometry options)).
    + destruct D as [-> ->]. apply typeof_function. eauto.
    + pose proof (derived_is_function
                    (heap st ++ [OStyle Style_started]) new (length (heap st))
                    Style_started (Style_built options f)
                    (StyleOptions.geometry options) f) as Hfun.
      rewrite insert_at_end in Hfun. apply Hfun; [| | done].
      * rewrite lookup_app_l; [done |]. by eapply lookup_lt_Some.
      * by rewrite list_lookup_middle.
  - intros Hu. rewrite Hu in D. destruct D as [-> ->].
    rewrite (getGeometryFunction_ok _ (length (heap st))
               (Style_built options (VRef defaultGeometryFunction)));
      [reflexivity |]. cbn. apply Hthis.
Qed.

Lemma setGeometry_falsy_installs_default
      (native : nat -> list value -> M value)
      (st : state) (this : loc) (x : value) :
  has_resolver st this ->
  truthy x = false -> typeof_in (heap st) x <> "string" ->
  exists st',
    setGeometry this x st = Ok tt st'
    /\ getGeometryFunction this st' = Ok (VRef defaultGeometryFunction) st'
    /\ forall args,
        call native (VRef defaultGeometryFunction) args st'
        = Feature_getGeometry (arg 0 args) st'.
Proof.
  intros (Hl & s & Hs & _) Ht Hn.
  destruct (setGeometry_result st this s x Hs)
    as (st' & f & new & Heq & D & Hh & _ & Hthis).
  exists st'. split; [done |].
  assert (f = VRef defaultGeometryFunction) as ->.
  { destruct D as [Hf|name ->|_ _ _|_ _ Ht']; try done; try congruence.
    apply typeof_function in Hf as (l & c & -> & _). discriminate. }
  split; [by rewrite (getGeometryFunction_ok _ _ _ Hthis) |].
  intros args.
  assert (heap st' !! defaultGeometryFunction
          = Some (OFunction CDefaultGeometry)) as Hc
      by (rewrite Hh; by eapply function_kept).
  by rewrite (call_function _ _ _ _ args Hc).
Qed.

(** C9 (amended): a descriptor always has a resolver.  After construction
    with any options, or none, and after any sequence of setter calls,
    [getGeometryFunction()] returns a function.  When the options configure
    no geometry the resolver is the default one, and [setGeometry] with a
    falsy argument that is not a string installs the default one, which
    returns the feature's own geometry. *)
Theorem resolver_always_present
        (native : nat -> list value -> M value)
        (opt_options : option StyleOptions.t) (cs : list setter)
        (st : state) :
  loaded st ->
  exists this st1 st2 f,
    Style_new opt_options st = Ok (VRef this) st1
    /\ (is_undefined (StyleOptions.geometry
                        (default StyleOptions.empty opt_options)) = true ->
        getGeometryFunction this st1
        = Ok (VRef defaultGeometryFunction) st1)
    /\ apply_setters this cs st1 = Ok tt st2
    /\ getGeometryFunction this st2 = Ok f st2
    /\ typeof_in (heap st2) f = "function"
    /\ forall x,
        truthy x = false -> typeof_in (heap st2) x <> "string" ->
        exists st3,
          setGeometry this x st2 = Ok tt st3
          /\ getGeometryFunction this st3
             = Ok (VRef defaultGeometryFunction) st3
          /\ forall args,
              call native (VRef defaultGeometryFunction) args st3
              = Feature_getGeometry (arg 0 args) st3.
Proof.
  intros Hl.
  destruct (Style_new_has_resolver opt_options st Hl) as (st1 & Hnew & H1 & Hd).
  destruct (apply_setters_keep_resolver cs st1 _ H1) as (st2 & Hset & H2).
  pose proof H2 as (_ & s & Hs & Ht).
  exists (length (heap st)), st1, st2, (geometryFunction_ s).
  split; [done |]. split; [done |]. split; [done |].
  split; [by apply getGeometryFunction_ok |]. split; [done |].
  intros x Hx Hn. by apply setGeometry_falsy_installs_default.
Qed.

Lemma resolver_always_present_witness :
  exists this st1 st2 f,
    Style_new None module_init = Ok (VRef this) st1
    /\ apply_setters this [SetGeometry (VString "labelPoint");
                           SetFill VNull; SetGeometry (VBool false)] st1
       = Ok tt st2
    /\ getGeometryFunction this st2 = Ok f st2
    /\ typeof_in (heap st2) f = "function".
Proof.
  destruct (resolver_always_present
              (fun _ _ => ret VUndefined) None
              [SetGeometry (VString "labelPoint"); SetFill VNull;
               SetGeometry (VBool false)]
              module_init eq_refl)
    as (this & st1 & st2 & f & H1 & _ & H2 & H3 & H4 & _).
  by exists this, st1, st2, f.
Defined.

(** C9 as first stated fails on the empty string: after
    [setGeometry("")] the resolver is a property lookup, not the default
    one.  On a feature without such a property it returns [undefined],
    where the default resolver returns the feature's geometry. *)
Lemma resolver_not_default_after_empty_string :
  truthy (VString "") = false
  /\ exists this st1 st2 f,
      Style_new None st_sample = Ok (VRef this) st1
      /\ setGeometry this (VString "") st1 = Ok tt st2
      /\ getGeometryFunction this st2 = Ok f st2
      /\ f <> VRef defaultGeometryFunction
      /\ call (fun _ _ => ret VUndefined) f [VRef 4] st2 = Ok VUndefined st2
      /\ call (fun _ _ => ret VUndefined) (VRef defaultGeometryFunction)
              [VRef 4] st2
         = Ok (VRef 2) st2.
Proof.
  split; [reflexivity |].
  eexists _, _, _, _. split; [vm_compute; reflexivity |].
  split; [vm_compute; reflexivity |].
  split; [vm_compute; reflexivity |].
  split; [discriminate |].
  split; vm_compute; reflexivity.
Qed.

(** * toFunction *)

Lemma toFunction_function (st : state) (obj : value) :
  typeof_in (heap st) obj = "function" -> toFunction obj st = Ok obj st.
Proof. intros H. unfold toFunction, typeof. cbn. by rewrite H. Qed.

Lemma toFunction_array (st : state) (l : loc) (es : list value) :
  heap st !! l = Some (OArray es) ->
  toFunction (VRef l) st
  = Ok (VRef (length (heap st)))
       (mkState (heap st ++ [OFunction (CStyles (VRef l))])
                (defaultStyles st)).
Proof.
  intros H. unfold toFunction, typeof, Array_isArray, new_function. cbn.
  rewrite H. cbn. by rewrite H.
Qed.

Lemma toFunction_Style (st : state) (l : loc) (s : Style) :
  heap st !! l = Some (OStyle s) ->
  toFunction (VRef l) st
  = Ok (VRef (length (heap st) + 1))
       (mkState (heap st ++ [OArray [VRef l];
                             OFunction (CStyles (VRef (length (heap st))))])
                (defaultStyles st)).
Proof.
  intros H.
  unfold toFunction, typeof, Array_isArray, instanceof_Style, new_function,
    new_array, assert.
  do 3 (cbn; rewrite H). cbn. by rewrite length_app, <- app_assoc.
Qed.

Lemma toFunction_other (st : state) (obj : value) :
  typeof_in (heap st) obj <> "function" ->
  (forall es, lookup_obj (heap st) obj <> Some (OArray es)) ->
  (forall s, lookup_obj (heap st) obj <> Some (OStyle s)) ->
  toFunction obj st = Throw (AssertionError 41) st.
Proof.
  intros Hf Ha Hs.
  unfold toFunction, typeof, Array_isArray, instanceof_Style, assert. cbn.
  apply String.eqb_neq in Hf. rewrite Hf.
  destruct (lookup_obj (heap st) obj) as [[c|es|?|s|?|? ?|? ? ?|?|? ?|? ?]|]
    eqn:E; do 2 (cbn; rewrite ?E); try done.
  - by destruct (Ha es).
  - by destruct (Hs s).
Qed.

(** C8: toFunction returns a function as it is; for an array it returns a
    resolver that returns that same array whatever its arguments; for one
    descriptor it returns a resolver that returns a one-element array holding
    exactly that descriptor; for any other input it fails with the assertion
    error of code 41 and returns no resolver. *)
Theorem toFunction_shapes (native : nat -> list value -> M value)
        (st : state) (obj : value) :
  (typeof_in (heap st) obj = "function" -> toFunction obj st = Ok obj st)
  /\ (forall es, lookup_obj (heap st) obj = Some (OArray es) ->
      exists f st',
        toFunction obj st = Ok f st'
        /\ typeof_in (heap st') f = "function"
        /\ forall args, call native f args st' = Ok obj st')
  /\ (forall s, lookup_obj (heap st) obj = Some (OStyle s) ->
      exists f st' a,
        toFunction obj st = Ok f st'
        /\ typeof_in (heap st') f = "function"
        /\ heap st' !! a = Some (OArray [obj])
        /\ forall args, call native f args st' = Ok (VRef a) st')
  /\ (typeof_in (heap st) obj <> "function" ->
      (forall es, lookup_obj (heap st) obj <> Some (OArray es)) ->
      (forall s, lookup_obj (heap st) obj <> Some (OStyle s)) ->
      toFunction obj st = Throw (AssertionError 41) st).
Proof.
  split; [apply toFunction_function |].
  split; [| split; [| apply toFunction_other]].
  - intros es H. destruct obj as [| | | | |l]; try discriminate. cbn in H.
    rewrite (toFunction_array _ _ _ H).
    set (st1 := mkState _ _).
    assert (heap st1 !! length (heap st)
            = Some (OFunction (CStyles (VRef l)))) as Hc
        by (by apply list_lookup_middle).
    eexists _, _. split; [done |]. split.
    + apply typeof_function. eauto.
    + intros args. by rewrite (call_function native _ _ _ args Hc).
  - intros s H. destruct obj as [| | | | |l]; try discriminate. cbn in H.
    rewrite (toFunction_Style _ _ _ H).
    set (st1 := mkState _ _).
    assert (heap st1 !! (length (heap st) + 1)
            = Some (OFunction (CStyles (VRef (length (heap st)))))) as Hc
        by (cbn; by rewrite lookup_ext).
    assert (heap st1 !! (length (heap st)) = Some (OArray [VRef l])) as Ha
        by (by apply list_lookup_middle).
    eexists _, _, _. split; [done |]. split; [| split; [exact Ha |]].
    + apply typeof_function. eauto.
    + intros args. by rewrite (call_function native _ _ _ args Hc).
Qed.

Lemma toFunction_shapes_witness :
  toFunction (VNumber 42) st_sample = Throw (AssertionError 41) st_sample.
Proof.
  apply (toFunction_shapes (fun _ _ => ret VUndefined) st_sample (VNumber 42));
    [discriminate | intros es; discriminate | intros s; discriminate].
Defined.

Lemma Array_push_ok (st : state) (a : loc) (es : list value) (x : value) :
  heap st !! a = Some (OArray es) ->
  Array_push (VRef a) x st
  = Ok tt (mkState (<[a := OArray (es ++ [x])]> (heap st)) (defaultStyles st)).
Proof. intros H. unfold Array_push. cbn. by rewrite H. Qed.

(** C10: for an array and for a single descriptor, the resolver toFunction
    returns gives the identical array reference on every call, whatever the
    arguments.  For a descriptor the one-element array is allocated when
    toFunction runs, not on a call; for an array it is the caller's own
    array, so that a later change of that array is seen through the
    resolver. *)
Theorem toFunction_resolver_constant
        (native : nat -> list value -> M value)
        (st : state) (l : loc) (o : obj)
        (args1 args2 : list value) (x : value) :
  heap st !! l = Some o ->
  (exists es, o = OArray es) \/ (exists s, o = OStyle s) ->
  exists lf a es st1 st2,
    toFunction (VRef l) st = Ok (VRef lf) st1
    /\ call native (VRef lf) args1 st1 = Ok (VRef a) st1
    /\ call native (VRef lf) args2 st1 = Ok (VRef a) st1
    /\ heap st1 !! a = Some (OArray es)
    /\ match o with
       | OArray es0 => a = l /\ es = es0
       | _ => a = length (heap st) /\ es = [VRef l]
       end
    /\ Array_push (VRef a) x st1 = Ok tt st2
    /\ call native (VRef lf) args1 st2 = Ok (VRef a) st2
    /\ heap st2 !! a = Some (OArray (es ++ [x])).
Proof.
  intros H [[es ->]|[s ->]].
  - rewrite (toFunction_array _ _ _ H).
    set (st1 := mkState _ _).
    assert (heap st1 !! length (heap st)
            = Some (OFunction (CStyles (VRef l)))) as Hc
        by (by apply list_lookup_middle).
    assert (heap st1 !! l = Some (OArray es)) as Ha.
    { cbn. rewrite lookup_app_l; [done |]. by eapply lookup_lt_Some. }
    exists (length (heap st)), l, es, st1. eexists.
    split; [done |].
    split; [by rewrite (call_function native _ _ _ args1 Hc) |].
    split; [by rewrite (call_function native _ _ _ args2 Hc) |].
    split; [done |]. split; [done |].
    split; [by apply Array_push_ok |].
    assert (l <> length (heap st)) as Hne
        by (apply lookup_lt_Some in H; lia).
    split.
    + rewrite (call_function native _ _ (CStyles (VRef l)) args1);
        [reflexivity |]. cbn.
      rewrite list_lookup_insert_ne by done. exact Hc.
    + cbn. apply list_lookup_insert_eq. by eapply lookup_lt_Some.
  - rewrite (toFunction_Style _ _ _ H).
    set (st1 := mkState _ _).
    assert (heap st1 !! (length (heap st) + 1)
            = Some (OFunction (CStyles (VRef (length (heap st)))))) as Hc
        by (cbn; by rewrite lookup_ext).
    assert (heap st1 !! length (heap st) = Some (OArray [VRef l])) as Ha
        by (by apply list_lookup_middle).
    exists (length (heap st) + 1), (length (heap st)), [VRef l], st1.
    eexists.
    split; [done |].
    split; [by rewrite (call_function native _ _ _ args1 Hc) |].
    split; [by rewrite (call_function native _ _ _ args2 Hc) |].
    split; [done |]. split; [done |].
    split; [by apply Array_push_ok |].
    split.
    + rewrite (call_function native _ _
                 (CStyles (VRef (length (heap st)))) args1);
        [reflexivity |]. cbn.
      rewrite list_lookup_insert_ne by lia. exact Hc.
    + cbn. apply list_lookup_insert_eq. by eapply lookup_lt_Some.
Qed.

Lemma toFunction_resolver_constant_witness :
  exists lf a es st1 st2,
    toFunction (VRef 1) st_sample = Ok (VRef lf) st1
    /\ call (fun _ _ => ret VUndefined) (VRef lf) [VRef 3; VNumber 1] st1
       = Ok (VRef a) st1
    /\ call (fun _ _ => ret VUndefined) (VRef lf) [] st1 = Ok (VRef a) st1
    /\ heap st1 !! a = Some (OArray es)
    /\ Array_push (VRef a) VNull st1 = Ok tt st2
    /\ heap st2 !! a = Some (OArray (es ++ [VNull])).
Proof.
  destruct (toFunction_resolver_constant
              (fun _ _ => ret VUndefined) st_sample 1
              (OStyle (Style_built StyleOptions.empty
                                   (VRef defaultGeometryFunction)))
              [VRef 3; VNumber 1] [] VNull eq_refl
              (or_intror (ex_intro _ _ eq_refl)))
    as (lf & a & es & st1 & st2 & H1 & H2 & H3 & H4 & _ & H5 & _ & H6).
  by exists lf, a, es, st1, st2.
Defined.

(** * The factories *)

Lemma Style_new_plain (options : StyleOptions.t) (st : state) :
  StyleOptions.geometry options = VUndefined ->
  Style_new (Some options) st
  = Ok (VRef (length (heap st)))
       (mkState (heap st ++ [OStyle (Style_built options
                                       (VRef defaultGeometryFunction))])
                (defaultStyles st)).
Proof.
  intros Hg. destruct (Style_new_spec (Some options) st) as (f & new & Heq & D).
  cbn in Heq, D. rewrite Hg in D. cbn in D. destruct D as [-> ->]. exact Heq.
Qed.

(** Symbolic execution on a heap [h ++ l] whose tail [l] is explicit. *)
Ltac heap_norm :=
  rewrite ?length_app, <- ?app_assoc, <- ?Nat.add_assoc;
  cbn -[Style_new];
  rewrite ?lookup_ext, ?insert_ext, ?lookup_insert_eq;
  rewrite ?lookup_insert_ne by done;
  cbn -[Style_new].

Ltac run_factory :=
  repeat (progress (rewrite ?Style_new_plain by reflexivity; heap_norm)).

Lemma createDefaultStyle_first (h : list obj) (d feature resolution : value) :
  truthy d = false ->
  createDefaultStyle feature resolution (mkState h d)
  = Ok (VRef (length h + 4))
       (mkState (h ++ default_objects (length h)) (VRef (length h + 4))).
Proof.
  intros Hd. rewrite <- (app_nil_r h) at 1.
  unfold createDefaultStyle, Fill_new, Stroke_new, CircleStyle_new, new_array.
  cbn -[Style_new]. rewrite Hd. cbn -[Style_new].
  run_factory. by rewrite Nat.add_0_r.
Qed.

Lemma createEditingStyle_run (h : list obj) (d : value) :
  createEditingStyle (mkState h d)
  = Ok (VRef (length h)) (mkState (h ++ editing_objects (length h)) d).
Proof.
  rewrite <- (app_nil_r h) at 1.
  unfold createEditingStyle, Fill_new, Stroke_new, CircleStyle_new, new_array,
    new_object, get_prop, set_prop, Array_concat, spread.
  cbn -[Style_new].
  run_factory. by rewrite Nat.add_0_r.
Qed.

(** Reading a heap [H = h ++ l] kept abstract: the lookups of the explicit
    tail are stated once, as hypotheses, and then rewritten with. *)
Ltac state_lookups H h k :=
  lazymatch k with
  | O => idtac
  | S ?k' =>
      let Hk := fresh "Hlk" in
      eassert (Hk : H !! (length h + k') = _)
        by (unfold H; rewrite lookup_ext; cbn; reflexivity);
      state_lookups H h k'
  end.

Lemma mapping_parts (gc mpt pt c mls ls mpg pg : value) :
  parts_of (OObject (<[GEOMETRY_COLLECTION := gc]>
            (<[MULTI_POINT := mpt]>
             (<[POINT := pt]>
              (<[CIRCLE := c]>
               (<[MULTI_LINE_STRING := mls]>
                (<[LINE_STRING := ls]>
                 (<[MULTI_POLYGON := mpg]>
                  (<[POLYGON := pg]> ∅)))))))))
  = [pt; ls; pg; mpt; mls; mpg; gc; c].
Proof. vm_compute. reflexivity. Qed.

Ltac rewrite_lookups :=
  repeat match goal with
         | Hk : _ !! _ = Some _ |- _ => rewrite Hk
         end.

Ltac read_heap :=
  cbn -[lookup parts_of]; rewrite_lookups;
  cbn -[lookup parts_of]; rewrite ?mapping_parts;
  repeat (progress (cbn -[lookup]; rewrite_lookups)).

Lemma editing_content_equal (h : list obj) (fuel : nat) :
  content_of fuel
    (h ++ editing_objects (length h) ++ editing_objects (length h + 19))
    (VRef (length h + 0))
  = content_of fuel
      (h ++ editing_objects (length h) ++ editing_objects (length h + 19))
      (VRef (length h + 19)).
Proof.
  unfold editing_objects. rewrite <- ?Nat.add_assoc. cbn [Nat.add app].
  set (H := h ++ _).
  state_lookups H h 38.
  clearbody H.
  do 6 (destruct fuel as [|fuel]; [by read_heap |]).
  by read_heap.
Qed.

Lemma mapping_lookup (gc mpt pt c mls ls mpg pg : value) (k : GeometryType) :
  (<[GEOMETRY_COLLECTION := gc]>
   (<[MULTI_POINT := mpt]>
    (<[POINT := pt]>
     (<[CIRCLE := c]>
      (<[MULTI_LINE_STRING := mls]>
       (<[LINE_STRING := ls]>
        (<[MULTI_POLYGON := mpg]>
         (<[POLYGON := pg]> (∅ : gmap GeometryType value))))))))) !! k
  = Some match k with
         | POINT => pt | LINE_STRING => ls | POLYGON => pg
         | MULTI_POINT => mpt | MULTI_LINE_STRING => mls
         | MULTI_POLYGON => mpg | GEOMETRY_COLLECTION => gc | CIRCLE => c
         end.
Proof. destruct k; vm_compute; reflexivity. Qed.

Lemma editing_objects_length (n : nat) : length (editing_objects n) = 19.
Proof. reflexivity. Qed.

(** C5: createDefaultStyle memoizes its result.  The first call builds a
    sequence of one descriptor whose fill is the translucent white
    'rgba(255,255,255,0.4)', whose stroke is '#3399CC' of width 1.25 and
    whose image is a circle of radius 5 holding the very same fill and
    stroke instances; every later call returns the same sequence reference
    and changes nothing; the two arguments are ignored. *)
Theorem createDefaultStyle_memoized (st : state) (feature resolution : value) :
  truthy (defaultStyles st) = false ->
  exists a d fl sk im s st1,
    createDefaultStyle feature resolution st = Ok (VRef a) st1
    /\ defaultStyles st1 = VRef a
    /\ heap st1 !! a = Some (OArray [VRef d])
    /\ heap st1 !! d = Some (OStyle s)
    /\ fill_ s = VRef fl /\ stroke_ s = VRef sk /\ image_ s = VRef im
    /\ heap st1 !! fl = Some (OFill (VString "rgba(255,255,255,0.4)"))
    /\ heap st1 !! sk = Some (OStroke (VString "#3399CC") (VNumber 1.25))
    /\ heap st1 !! im = Some (OCircle (VRef fl) (VRef sk) (VNumber 5))
    /\ (forall st2 feature' resolution',
           defaultStyles st2 = VRef a ->
           createDefaultStyle feature' resolution' st2 = Ok (VRef a) st2)
    /\ (forall feature' resolution',
           createDefaultStyle feature' resolution' st
           = createDefaultStyle feature resolution st).
Proof.
  intros Hd. destruct st as [h d]. cbn in Hd.
  rewrite (createDefaultStyle_first h d feature resolution Hd).
  exists (length h + 4), (length h + 3), (length h), (length h + 1),
    (length h + 2).
  eexists _, _. split; [reflexivity |]. split; [reflexivity |]. cbn [heap].
  split; [by rewrite lookup_ext |].
  split; [by rewrite lookup_ext |].
  do 3 (split; [reflexivity |]).
  split; [by rewrite lookup_ext0 |].
  split; [by rewrite lookup_ext |].
  split; [by rewrite lookup_ext |].
  split.
  - intros [h2 d2] feature' resolution' Hd2. cbn in Hd2. subst d2.
    reflexivity.
  - intros feature' resolution'.
    by rewrite (createDefaultStyle_first h d feature' resolution' Hd).
Qed.

Lemma createDefaultStyle_memoized_witness :
  exists a st1,
    createDefaultStyle VNull (VNumber 1) module_init = Ok (VRef a) st1
    /\ createDefaultStyle (VRef 3) (VNumber 2) st1 = Ok (VRef a) st1.
Proof.
  destruct (createDefaultStyle_memoized module_init VNull (VNumber 1) eq_refl)
    as (a & d & fl & sk & im & s & st1 & H1 & H2 & _ & _ & _ & _ & _ & _
        & _ & _ & H3 & _).
  exists a, st1. split; [exact H1 |]. by apply H3.
Defined.

(** C7: in every mapping createEditingStyle returns, the line-string
    sequence is two descriptors, a white stroke of width 5 and then a blue
    stroke of width 3, and the point sequence is one descriptor whose image
    is a circle of radius 6 with a blue fill and a white stroke of width
    1.5, and whose zIndex is [Infinity]. *)
Theorem createEditingStyle_values (st : state) :
  exists m props ls d1 d2 s1 s2 k1 k2 white blue pt d3 s3 im fl sk st',
    createEditingStyle st = Ok (VRef m) st'
    /\ heap st' !! m = Some (OObject props)
    /\ props !! LINE_STRING = Some (VRef ls)
    /\ heap st' !! ls = Some (OArray [VRef d1; VRef d2])
    /\ heap st' !! d1 = Some (OStyle s1) /\ stroke_ s1 = VRef k1
    /\ heap st' !! k1 = Some (OStroke (VRef white) (VNumber 5))
    /\ heap st' !! d2 = Some (OStyle s2) /\ stroke_ s2 = VRef k2
    /\ heap st' !! k2 = Some (OStroke (VRef blue) (VNumber 3))
    /\ heap st' !! white
       = Some (OArray [VNumber 255; VNumber 255; VNumber 255; VNumber 1])
    /\ heap st' !! blue
       = Some (OArray [VNumber 0; VNumber 153; VNumber 255; VNumber 1])
    /\ props !! POINT = Some (VRef pt)
    /\ heap st' !! pt = Some (OArray [VRef d3])
    /\ heap st' !! d3 = Some (OStyle s3)
    /\ zIndex_ s3 = VNumber infinity /\ image_ s3 = VRef im
    /\ heap st' !! im = Some (OCircle (VRef fl) (VRef sk) (VNumber 6))
    /\ heap st' !! fl = Some (OFill (VRef blue))
    /\ heap st' !! sk = Some (OStroke (VRef white) (VNumber 1.5)).
Proof.
  destruct st as [h d]. rewrite createEditingStyle_run.
  exists (length h). eexists.
  exists (length h + 11), (length h + 8), (length h + 10).
  eexists _, _.
  exists (length h + 7), (length h + 9), (length h + 1), (length h + 2),
    (length h + 17), (length h + 16).
  eexists.
  exists (length h + 15), (length h + 13), (length h + 14).
  eexists. split; [reflexivity |]. cbn [heap].
  split; [by rewrite lookup_ext0 |].
  split; [by rewrite mapping_lookup |].
  split; [by rewrite lookup_ext |].
  split; [by rewrite lookup_ext |]. split; [reflexivity |].
  split; [by rewrite lookup_ext |].
  split; [by rewrite lookup_ext |]. split; [reflexivity |].
  split; [by rewrite lookup_ext |].
  split; [by rewrite lookup_ext |].
  split; [by rewrite lookup_ext |].
  split; [by rewrite mapping_lookup |].
  split; [by rewrite lookup_ext |].
  split; [by rewrite lookup_ext |].
  do 2 (split; [reflexivity |]).
  split; [by rewrite lookup_ext |].
  split; by rewrite lookup_ext.
Qed.

(** C6: createEditingStyle allocates anew on every call: two calls return
    mappings at different references, no entry of one is an entry of the
    other, and yet the two are equal in content.  Within one mapping the
    multi-polygon entry is the polygon entry itself, likewise multi-line-string
    and line-string, multi-point and point; the circle entry is a new sequence,
    the polygon sequence followed by the line-string sequence, of length 3;
    the geometry-collection entry is polygon, line-string and point
    sequences in a row, of length 4. *)
Theorem createEditingStyle_fresh_and_shared (st : state) (fuel : nat) :
  exists m1 m2 st1 st2 props1 props2 pg ls pt ci gc e_pg e_ls e_pt,
    createEditingStyle st = Ok (VRef m1) st1
    /\ createEditingStyle st1 = Ok (VRef m2) st2
    /\ length (heap st) <= m1 /\ m1 < length (heap st1)
    /\ length (heap st1) <= m2
    /\ m1 <> m2
    /\ heap st2 !! m1 = Some (OObject props1)
    /\ heap st2 !! m2 = Some (OObject props2)
    /\ (forall k v1 v2,
           props1 !! k = Some v1 -> props2 !! k = Some v2 -> v1 <> v2)
    /\ content_of fuel (heap st2) (VRef m1)
       = content_of fuel (heap st2) (VRef m2)
    /\ heap st1 !! m1 = Some (OObject props1)
    /\ props1 !! POLYGON = Some (VRef pg)
    /\ props1 !! MULTI_POLYGON = Some (VRef pg)
    /\ props1 !! LINE_STRING = Some (VRef ls)
    /\ props1 !! MULTI_LINE_STRING = Some (VRef ls)
    /\ props1 !! POINT = Some (VRef pt)
    /\ props1 !! MULTI_POINT = Some (VRef pt)
    /\ props1 !! CIRCLE = Some (VRef ci)
    /\ ci <> pg /\ ci <> ls
    /\ props1 !! GEOMETRY_COLLECTION = Some (VRef gc)
    /\ heap st1 !! pg = Some (OArray e_pg)
    /\ heap st1 !! ls = Some (OArray e_ls)
    /\ heap st1 !! pt = Some (OArray e_pt)
    /\ heap st1 !! ci = Some (OArray (e_pg ++ e_ls))
    /\ length (e_pg ++ e_ls) = 3
    /\ heap st1 !! gc = Some (OArray (e_pg ++ e_ls ++ e_pt))
    /\ length (e_pg ++ e_ls ++ e_pt) = 4.
Proof.
  destruct st as [h d].
  exists (length h), (length h + 19),
    (mkState (h ++ editing_objects (length h)) d),
    (mkState (h ++ editing_objects (length h)
                ++ editing_objects (length h + 19)) d).
  eexists _, _.
  exists (length h + 6), (length h + 11), (length h + 17), (length h + 12),
    (length h + 18).
  eexists _, _, _.
  split; [apply createEditingStyle_run |].
  split.
  { rewrite createEditingStyle_run. cbn [heap].
    by rewrite length_app, editing_objects_length, <- app_assoc. }
  cbn [heap].
  split; [lia |].
  split; [rewrite length_app, editing_objects_length; lia |].
  split; [rewrite length_app, editing_objects_length; lia |].
  split; [lia |].
  split; [by rewrite lookup_ext0 |].
  split; [by rewrite lookup_ext |].
  split.
  { intros k v1 v2. rewrite !mapping_lookup. intros [= <-] [= <-].
    destruct k; intros [=]; lia. }
  split.
  { pose proof (editing_content_equal h fuel) as Heq.
    by rewrite Nat.add_0_r in Heq. }
  split; [by rewrite lookup_ext0 |].
  do 7 (split; [by rewrite mapping_lookup |]).
  split; [intros ?; lia |]. split; [intros ?; lia |].
  split; [by rewrite mapping_lookup |].
  do 4 (split; [by rewrite lookup_ext |]).
  split; [reflexivity |].
  split; [by rewrite lookup_ext |]. reflexivity.
Qed.

(** * Cloning *)

Lemma bind_Ok {A B} (m : M A) (k : A -> M B) (st st2 : state) (b : B) :
  bind m k st = Ok b st2 ->
  exists a st1, m st = Ok a st1 /\ k a st1 = Ok b st2.
Proof. cbn. destruct (m st) as [a st1|]; [eauto | discriminate]. Qed.

Lemma extends_refl (st : state) : extends st st.
Proof. by split. Qed.

Lemma extends_trans (st1 st2 st3 : state) :
  extends st1 st2 -> extends st2 st3 -> extends st1 st3.
Proof. intros [H1 H2] [H3 H4]. split; [congruence | eauto]. Qed.

Lemma extends_length (st st' : state) :
  extends st st' -> length (heap st) <= length (heap st').
Proof.
  intros [_ H]. destruct (decide (length (heap st) <= length (heap st')))
    as [|Hn]; [done |].
  destruct (lookup_lt_is_Some_2 (heap st) (length (heap st'))) as [o Ho];
    [lia |].
  apply H, lookup_lt_Some in Ho. lia.
Qed.

Lemma extends_app (st : state) (new : list obj) :
  extends st (mkState (heap st ++ new) (defaultStyles st)).
Proof.
  split; [done |]. intros l o H. cbn.
  rewrite lookup_app_l; [done |]. by eapply lookup_lt_Some.
Qed.

Lemma bind_ext {A B} (m : M A) (k1 k2 : A -> M B) (st : state) :
  (forall a st1, m st = Ok a st1 -> k1 a st1 = k2 a st1) ->
  bind m k1 st = bind m k2 st.
Proof. intros H. cbn. destruct (m st) as [a st1|]; [by apply H | done]. Qed.

Lemma bind_getter {B} (p : Style -> value) (k : value -> M B) (st : state)
      (this : loc) (s : Style) :
  heap st !! this = Some (OStyle s) ->
  bind (s0 <- read_Style this ;; ret (p s0)) k st = k (p s) st.
Proof. intros H. cbn [bind]. by rewrite (read_Style_ok _ _ _ H). Qed.

Lemma extends_lookup (st st' : state) (l : loc) (o : obj) :
  extends st st' -> heap st !! l = Some o -> heap st' !! l = Some o.
Proof. intros [_ H]. apply H. Qed.

Lemma clone_present_extends (clone_of : value -> M value) (v v' : value)
      (st st' : state) :
  clone_contract clone_of ->
  clone_present clone_of v st = Ok v' st' -> extends st st'.
Proof.
  intros Hc. unfold clone_present. destruct (truthy v).
  - intros H. by apply Hc in H as [? _].
  - intros [= _ <-]. apply extends_refl.
Qed.

Lemma clone_slot_eq {B} (clone_of : value -> M value) (this : loc)
      (s : Style) (st : state) (p : Style -> value) (k1 k2 : value -> M B) :
  clone_contract clone_of ->
  heap st !! this = Some (OStyle s) ->
  (forall v' st', heap st' !! this = Some (OStyle s) ->
                  k1 v' st' = k2 v' st') ->
  (c <- (s0 <- read_Style this ;; ret (p s0)) ;;
   x <- (if truthy c
         then y <- (s0 <- read_Style this ;; ret (p s0)) ;; clone_of y
         else ret VUndefined) ;;
   k1 x) st
  = (x <- clone_present clone_of (p s) ;; k2 x) st.
Proof.
  intros Hc Hs Hk. rewrite (bind_getter _ _ _ _ _ Hs).
  unfold clone_present. destruct (truthy (p s)).
  - cbn [bind]. rewrite (read_Style_ok _ _ _ Hs). cbn [ret].
    destruct (clone_of (p s) st) as [v' st'|] eqn:H; [| done].
    apply Hk. apply Hc in H as [E _]. by eapply extends_lookup.
  - cbn [bind ret]. by apply Hk.
Qed.

Lemma Style_clone_with_parts (clone_of : value -> M value) (this : loc)
      (s : Style) (st : state) :
  clone_contract clone_of ->
  heap st !! this = Some (OStyle s) ->
  Style_clone_with clone_of this st = clone_parts clone_of s st.
Proof.
  intros Hc Hs.
  unfold Style_clone_with, clone_parts, getGeometry.
  rewrite (bind_getter _ _ _ _ _ Hs).
  apply bind_ext. intros h st0 H0. cbn in H0. injection H0 as <- <-.
  apply bind_ext. intros g' st1 H1.
  assert (heap st1 !! this = Some (OStyle s)) as Hs1.
  { destruct (_ && _).
    - apply Hc in H1 as [E _]. by eapply extends_lookup.
    - by injection H1 as _ <-. }
  apply (clone_slot_eq clone_of this s st1 fill_); [done | done |].
  intros f' st2 Hs2.
  apply (clone_slot_eq clone_of this s st2 image_); [done | done |].
  intros i' st3 Hs3.
  apply (clone_slot_eq clone_of this s st3 stroke_); [done | done |].
  intros k' st4 Hs4.
  apply (clone_slot_eq clone_of this s st4 text_); [done | done |].
  intros t' st5 Hs5.
  unfold getZIndex. by rewrite (bind_getter _ _ _ _ _ Hs5).
Qed.

(** A clone made between [sa] and [sb] is a clone between the earlier [st]
    and the later [st']. *)
Lemma part_cloned_from (st sa sb st' : state) (v v' : value) :
  extends st sa -> extends sb st' ->
  (if truthy v then clone_post sa v v' sb else v' = VUndefined /\ sb = sa) ->
  part_cloned st st' v (or_null v').
Proof.
  intros E1 E2 H. unfold part_cloned. destruct (truthy v).
  - destruct H as (E & l & l' & o & o' & -> & -> & Ho & Ho' & Hc & Hl).
    exists l, l', o'. pose proof (extends_length _ _ E1) as Hlen.
    split; [done |]. split; [done |]. split; [lia |].
    split; [by eapply extends_lookup |].
    intros o0 Ho0.
    pose proof (extends_lookup _ _ _ _ E1 Ho0) as Ho1.
    assert (o0 = o) as -> by congruence.
    split; [done |]. intros x.
    rewrite list_lookup_insert_ne
      by (apply lookup_lt_Some in Ho0; lia).
    eapply extends_lookup; [exact E2 |].
    eapply extends_lookup; [exact E |]. done.
  - by destruct H as [-> _].
Qed.

Lemma clone_present_post (clone_of : value -> M value) (v v' : value)
      (st st' : state) :
  clone_contract clone_of ->
  clone_present clone_of v st = Ok v' st' ->
  if truthy v then clone_post st v v' st' else v' = VUndefined /\ st' = st.
Proof.
  intros Hc. unfold clone_present. destruct (truthy v).
  - apply Hc.
  - by intros [= <- <-].
Qed.

Lemma clone_parts_post (clone_of : value -> M value) (s : Style)
      (st st' : state) (r : value) :
  clone_contract clone_of ->
  clone_parts clone_of s st = Ok r st' ->
  extends st st'
  /\ exists l' s',
      r = VRef l' /\ length (heap st) <= l'
      /\ heap st' !! l' = Some (OStyle s')
      /\ renderer_ s' = VNull
      /\ zIndex_ s' = zIndex_ s
      /\ geometry_cloned st st' (geometry_ s) (geometry_ s')
      /\ part_cloned st st' (fill_ s) (fill_ s')
      /\ part_cloned st st' (image_ s) (image_ s')
      /\ part_cloned st st' (stroke_ s) (stroke_ s')
      /\ part_cloned st st' (text_ s) (text_ s').
Proof.
  intros Hc H. unfold clone_parts in H.
  apply bind_Ok in H as (h & st0 & H0 & H). cbn in H0. injection H0 as <- <-.
  apply bind_Ok in H as (g' & s1 & Hg & H).
  apply bind_Ok in H as (f' & s2 & Hf & H).
  apply bind_Ok in H as (i' & s3 & Hi & H).
  apply bind_Ok in H as (k' & s4 & Hk & H).
  apply bind_Ok in H as (t' & s5 & Ht & H).
  destruct (Style_new_spec (Some {| StyleOptions.geometry := g';
                     StyleOptions.fill := f';
                     StyleOptions.image := i';
                     StyleOptions.renderer := VUndefined;
                     StyleOptions.stroke := k';
                     StyleOptions.text := t';
                     StyleOptions.zIndex := zIndex_ s |}) s5)
    as (fn & new & Hnew & _).
  cbn [default] in Hnew. rewrite Hnew in H. injection H as <- <-.
  assert (extends st s1) as E1.
  { destruct (_ && _); [by apply Hc in Hg as [? _] |].
    injection Hg as _ <-. apply extends_refl. }
  pose proof (clone_present_extends _ _ _ _ _ Hc Hf) as E2.
  pose proof (clone_present_extends _ _ _ _ _ Hc Hi) as E3.
  pose proof (clone_present_extends _ _ _ _ _ Hc Hk) as E4.
  pose proof (clone_present_extends _ _ _ _ _ Hc Ht) as E5.
  set (st' := mkState _ _).
  assert (extends s5 st') as E6 by apply extends_app.
  assert (extends st s2) as E02 by (by eapply extends_trans).
  assert (extends st s3) as E03 by (by eapply extends_trans).
  assert (extends st s4) as E04 by (by eapply extends_trans).
  assert (extends st s5) as E05 by (by eapply extends_trans).
  assert (extends s4 st') as E46 by (by eapply extends_trans).
  assert (extends s3 st') as E36 by (by eapply extends_trans).
  assert (extends s2 st') as E26 by (by eapply extends_trans).
  assert (extends s1 st') as E16 by (by eapply extends_trans).
  split; [by eapply extends_trans |].
  eexists _, _. split; [reflexivity |].
  split; [by apply extends_length |].
  split; [subst st'; cbn; by rewrite list_lookup_middle |].
  split; [reflexivity |]. split; [reflexivity |].
  cbn [Style_built geometry_ fill_ image_ stroke_ text_ StyleOptions.geometry
       StyleOptions.fill StyleOptions.image StyleOptions.stroke
       StyleOptions.text].
  split.
  { unfold geometry_cloned. destruct (_ && _).
    - apply Hc in Hg
        as (E & l & l' & o & o' & -> & -> & Ho & Ho' & Hco & Hl).
      exists l, l', o'. split; [done |]. split; [done |].
      split; [done |].
      split; [eapply extends_lookup; [exact E16 | done] |].
      intros o0 Ho0. congruence.
    - by injection Hg as <- _. }
  split.
  { eapply (part_cloned_from st s1 s2 st'); [done | done |].
    by apply (clone_present_post clone_of). }
  split.
  { eapply (part_cloned_from st s2 s3 st'); [done | done |].
    by apply (clone_present_post clone_of). }
  split.
  { eapply (part_cloned_from st s3 s4 st'); [done | done |].
    by apply (clone_present_post clone_of). }
  eapply (part_cloned_from st s4 s5 st'); [done | done |].
  by apply (clone_present_post clone_of).
Qed.

Lemma copy_param_extends (v v' : value) (st st' : state) :
  copy_param v st = Ok v' st' -> extends st st'.
Proof.
  unfold copy_param, new_array. cbn.
  destruct (lookup_obj (heap st) v) as [[]|]; cbn; intros [= _ <-];
    first [apply extends_refl | apply extends_app].
Qed.

Lemma alloc_post (st s1 st' : state) (l : loc) (o o' : obj) (v' : value) :
  extends st s1 ->
  heap st !! l = Some o ->
  (l' <- alloc o' ;; ret (VRef l')) s1 = Ok v' st' ->
  copy_of o o' ->
  clone_post st (VRef l) v' st'.
Proof.
  intros E Ho H Hc. cbn in H. injection H as <- <-.
  split; [eapply extends_trans; [exact E | apply extends_app] |].
  exists l, (length (heap s1)), o, o'.
  split; [done |]. split; [done |]. split; [done |].
  split; [cbn; by rewrite list_lookup_middle |].
  split; [done |]. by apply extends_length.
Qed.

Lemma invoke_clone_contract (fuel : nat) : clone_contract (invoke_clone fuel).
Proof.
  induction fuel as [|fuel IH]; intros v st v' st' H; [discriminate |].
  cbn [invoke_clone] in H.
  apply bind_Ok in H as (h & st0 & H0 & H). cbn in H0. injection H0 as <- <-.
  destruct v as [| | | | |l]; try discriminate. cbn [lookup_obj] in H.
  destruct (heap st !! l) as [[c|es|ps|s|color|color width|fill stroke radius
                               |text|[] coords|g ps]|] eqn:Hl;
    try discriminate.
  - rewrite (Style_clone_with_parts _ _ _ _ IH Hl) in H.
    apply (clone_parts_post _ _ _ _ _ IH) in H
      as (E & l' & s' & -> & Hlen & Hs' & _ & Hz & _).
    split; [done |]. exists l, l', (OStyle s), (OStyle s'). done.
  - apply bind_Ok in H as (color' & s1 & Hc & H).
    eapply alloc_post; [by eapply copy_param_extends | done | exact H | done].
  - apply bind_Ok in H as (color' & s1 & Hc & H).
    eapply alloc_post; [by eapply copy_param_extends | done | exact H | done].
  - apply bind_Ok in H as (fill' & s1 & Hf & H).
    apply bind_Ok in H as (stroke' & s2 & Hk & H).
    eapply alloc_post; [| done | exact H | done].
    eapply extends_trans; by eapply clone_present_extends.
  - eapply alloc_post; [apply extends_refl | done | exact H | done].
  - eapply alloc_post; [apply extends_refl | done | exact H | done].
Qed.

(** ** Success on well-formed descriptors *)

Lemma leaf_style_extends (st st' : state) (v : value) :
  extends st st' -> leaf_style (heap st) v = true ->
  leaf_style (heap st') v = true.
Proof.
  intros E. unfold leaf_style. destruct v as [| | | | |l]; try done. cbn.
  destruct (heap st !! l) as [o|] eqn:Hl; [| done].
  by rewrite (extends_lookup _ _ _ _ E Hl).
Qed.

Lemma absent_or_extends (p p' : value -> bool) (v : value) :
  (p v = true -> p' v = true) ->
  absent_or p v = true -> absent_or p' v = true.
Proof.
  unfold absent_or. destruct (truthy v); cbn; [auto | done].
Qed.

Lemma sub_style_extends (st st' : state) (v : value) :
  extends st st' -> sub_style (heap st) v = true ->
  sub_style (heap st') v = true.
Proof.
  intros E. unfold sub_style. destruct v as [| | | | |l]; try done. cbn.
  destruct (heap st !! l) as [o|] eqn:Hl; [| done].
  rewrite (extends_lookup _ _ _ _ E Hl). destruct o; try done.
  intros [H1 H2]%andb_prop. apply andb_true_intro.
  split; (eapply absent_or_extends; [by apply leaf_style_extends | done]).
Qed.

Lemma copy_param_ok (v : value) (st : state) :
  exists v' st', copy_param v st = Ok v' st'.
Proof.
  unfold copy_param, new_array. cbn.
  destruct (lookup_obj (heap st) v) as [[]|]; cbn; eauto.
Qed.

Lemma leaf_clone_ok (fuel : nat) (v : value) (st : state) :
  leaf_style (heap st) v = true ->
  exists v' st', invoke_clone (S fuel) v st = Ok v' st'.
Proof.
  intros H. unfold leaf_style in H. destruct v as [| | | | |l]; try done.
  cbn in H.
  destruct (heap st !! l) as [[]|] eqn:Hl; try done;
    cbn [invoke_clone bind get_heap lookup_obj]; rewrite Hl; cbn [bind].
  - destruct (copy_param_ok color st) as (c' & s1 & ->).
    unfold Fill_new. cbn. eauto.
  - destruct (copy_param_ok color st) as (c' & s1 & ->).
    unfold Stroke_new. cbn. eauto.
  - cbn. eauto.
Qed.

Lemma clone_present_ok (clone_of : value -> M value) (p : value -> bool)
      (v : value) (st : state) :
  (p v = true -> exists v' st', clone_of v st = Ok v' st') ->
  absent_or p v = true ->
  exists v' st', clone_present clone_of v st = Ok v' st'.
Proof.
  unfold absent_or, clone_present. destruct (truthy v); cbn; eauto.
Qed.

Lemma invoke_clone_circle (fuel : nat) (l : loc) (st : state)
      (fill stroke radius : value) :
  heap st !! l = Some (OCircle fill stroke radius) ->
  invoke_clone (S fuel) (VRef l) st
  = (fill' <- clone_present (invoke_clone fuel) fill ;;
     stroke' <- clone_present (invoke_clone fuel) stroke ;;
     CircleStyle_new fill' stroke' radius) st.
Proof.
  intros H. cbn [invoke_clone bind get_heap lookup_obj]. by rewrite H.
Qed.

Lemma sub_style_clone_ok (fuel : nat) (v : value) (st : state) :
  sub_style (heap st) v = true ->
  exists v' st', invoke_clone (S (S fuel)) v st = Ok v' st'.
Proof.
  intros H. pose proof H as H'. unfold sub_style in H'.
  destruct v as [| | | | |l]; try done. cbn in H'.
  destruct (heap st !! l) as [[c|es|ps|s|color|color width|fill stroke radius
                               |text|cl coords|g ps]|] eqn:Hl; try done.
  - apply leaf_clone_ok. unfold leaf_style. cbn. by rewrite Hl.
  - apply leaf_clone_ok. unfold leaf_style. cbn. by rewrite Hl.
  - apply andb_prop in H' as [Hf Hk].
    rewrite (invoke_clone_circle _ _ _ _ _ _ Hl). cbn [bind].
    destruct (clone_present_ok (invoke_clone (S fuel)) _ fill st
                (leaf_clone_ok fuel fill st) Hf) as (f' & s1 & Hf').
    rewrite Hf'.
    pose proof (clone_present_extends _ _ _ _ _
                  (invoke_clone_contract (S fuel)) Hf') as E.
    assert (absent_or (leaf_style (heap s1)) stroke = true) as Hk1
        by (eapply absent_or_extends; [by apply leaf_style_extends | done]).
    destruct (clone_present_ok (invoke_clone (S fuel)) _ stroke s1
                (leaf_clone_ok fuel stroke s1) Hk1) as (k' & s2 & Hk').
    rewrite Hk'. cbn. eauto.
  - apply leaf_clone_ok. unfold leaf_style. cbn. by rewrite Hl.
Qed.

Lemma geometry_step_ok (fuel : nat) (g : value) (st : state) :
  geometry_spec_ok (heap st) g = true ->
  exists g' st',
    (if truthy g && exposes_clone (heap st) g
     then invoke_clone (S fuel) g else ret g) st = Ok g' st'.
Proof.
  unfold geometry_spec_ok, clonable_geometry.
  destruct (truthy g && exposes_clone (heap st) g); cbn [negb orb];
    [| cbn; eauto].
  destruct g as [| | | | |l]; try done. cbn [lookup_obj].
  destruct (heap st !! l) as [[| | | | | | | |[] coords|]|] eqn:Hl; try done.
  intros _. cbn [invoke_clone bind get_heap lookup_obj]. rewrite Hl.
  cbn. eauto.
Qed.

Lemma clone_parts_ok (fuel : nat) (s : Style) (st : state) :
  well_formed (heap st) s = true ->
  exists r st', clone_parts (invoke_clone (S (S fuel))) s st = Ok r st'.
Proof.
  unfold well_formed.
  intros [[[[Hg Hf]%andb_prop Hi]%andb_prop Hk]%andb_prop Ht]%andb_prop.
  pose proof (invoke_clone_contract (S (S fuel))) as Hc.
  unfold clone_parts. cbn [bind get_heap].
  destruct (geometry_step_ok (S fuel) _ _ Hg) as (g' & s1 & H1). rewrite H1.
  assert (extends st s1) as E1.
  { destruct (_ && _); [by apply Hc in H1 as [? _] |].
    injection H1 as _ <-. apply extends_refl. }
  assert (forall sa v, extends st sa ->
                       absent_or (sub_style (heap st)) v = true ->
                       exists v' sb,
                         clone_present (invoke_clone (S (S fuel))) v sa
                         = Ok v' sb /\ extends st sb) as Hslot.
  { intros sa v E Hv.
    destruct (clone_present_ok (invoke_clone (S (S fuel)))
                (sub_style (heap sa)) v sa) as (v' & sb & Hv').
    - apply sub_style_clone_ok.
    - eapply absent_or_extends; [by apply sub_style_extends | done].
    - exists v', sb. split; [done |].
      eapply extends_trans; [exact E |].
      by eapply clone_present_extends. }
  destruct (Hslot s1 _ E1 Hf) as (f' & s2 & -> & E2).
  destruct (Hslot s2 _ E2 Hi) as (i' & s3 & -> & E3).
  destruct (Hslot s3 _ E3 Hk) as (k' & s4 & -> & E4).
  destruct (Hslot s4 _ E4 Ht) as (t' & s5 & -> & E5).
  match goal with
  | |- context [Style_new ?o s5] =>
      destruct (Style_new_spec o s5) as (fn & new & -> & _)
  end.
  eauto.
Qed.

Lemma clone_result (fuel : nat) (st : state) (this : loc) (s : Style) :
  heap st !! this = Some (OStyle s) ->
  well_formed (heap st) s = true ->
  exists r s' st',
    clone (S (S fuel)) this st = Ok (VRef r) st'
    /\ heap st' !! r = Some (OStyle s')
    /\ length (heap st) <= r
    /\ extends st st'
    /\ renderer_ s' = VNull
    /\ zIndex_ s' = zIndex_ s
    /\ geometry_cloned st st' (geometry_ s) (geometry_ s')
    /\ part_cloned st st' (fill_ s) (fill_ s')
    /\ part_cloned st st' (image_ s) (image_ s')
    /\ part_cloned st st' (stroke_ s) (stroke_ s')
    /\ part_cloned st st' (text_ s) (text_ s').
Proof.
  intros Hs Hw. pose proof (invoke_clone_contract (S (S fuel))) as Hc.
  unfold clone. rewrite (Style_clone_with_parts _ _ _ _ Hc Hs).
  destruct (clone_parts_ok fuel s st Hw) as (r & st' & H).
  destruct (clone_parts_post _ _ _ _ _ Hc H)
    as (E & l' & s' & -> & Hlen & Hs' & Hr & Hz & Hg & Hf & Hi & Hk & Ht).
  exists l', s', st'. rewrite H. done.
Qed.

Lemma clone_returns_descriptor (fuel : nat) (st : state) (this : loc)
      (s : Style) (r : value) (st' : state) :
  heap st !! this = Some (OStyle s) ->
  clone fuel this st = Ok r st' ->
  extends st st'
  /\ exists l' s',
      r = VRef l' /\ length (heap st) <= l'
      /\ heap st' !! l' = Some (OStyle s')
      /\ renderer_ s' = VNull
      /\ zIndex_ s' = zIndex_ s
      /\ geometry_cloned st st' (geometry_ s) (geometry_ s')
      /\ part_cloned st st' (fill_ s) (fill_ s')
      /\ part_cloned st st' (image_ s) (image_ s')
      /\ part_cloned st st' (stroke_ s) (stroke_ s')
      /\ part_cloned st st' (text_ s) (text_ s').
Proof.
  intros Hs H. pose proof (invoke_clone_contract fuel) as Hc.
  unfold clone in H. rewrite (Style_clone_with_parts _ _ _ _ Hc Hs) in H.
  by apply (clone_parts_post _ _ _ _ _ Hc).
Qed.



(** C3: the clone never carries the custom renderer: whenever [clone]
    returns, [getRenderer()] of the result is [null], whatever renderer the
    original has; and [clone] returns on every well-formed descriptor. *)
Theorem clone_drops_renderer (st : state) (this : loc) (s : Style) :
  heap st !! this = Some (OStyle s) ->
  (forall fuel r st',
      clone fuel this st = Ok r st' ->
      exists l', r = VRef l' /\ getRenderer l' st' = Ok VNull st')
  /\ (well_formed (heap st) s = true ->
      forall fuel,
      exists r st',
        clone (S (S fuel)) this st = Ok (VRef r) st'
        /\ getRenderer r st' = Ok VNull st').
Proof.
  intros Hs. split.
  - intros fuel r st' H.
    destruct (clone_returns_descriptor fuel st this s r st' Hs H)
      as (_ & l' & s' & -> & _ & Hs' & Hr & _).
    exists l'. split; [done |].
    by rewrite (getRenderer_ok _ _ _ Hs'), Hr.
  - intros Hw fuel.
    destruct (clone_result fuel st this s Hs Hw)
      as (r & s' & st' & H & Hs' & _ & _ & Hr & _).
    exists r, st'. split; [done |].
    by rewrite (getRenderer_ok _ _ _ Hs'), Hr.
Qed.

Lemma clone_drops_renderer_witness :
  getRenderer 7 st_styled = Ok (VRef 5) st_styled
  /\ exists r st',
      clone 2 7 st_styled = Ok (VRef r) st'
      /\ getRenderer r st' = Ok VNull st'.
Proof.
  split; [reflexivity |].
  destruct (clone_drops_renderer st_styled 7 _ eq_refl) as [_ Hr].
  apply (Hr eq_refl 0).
Defined.

(** * Accessors *)



Lemma get_field_ok (f : field) (st : state) (this : loc) (s : Style) :
  heap st !! this = Some (OStyle s) ->
  get_field f this st = Ok (field_value f s) st.
Proof.
  intros H.
  destruct f; unfold get_field, getRenderer, getGeometry, getFill, getImage,
    getStroke, getText, getZIndex; cbn [bind];
    by rewrite (read_Style_ok _ _ _ H).
Qed.

Lemma apply_setter_result (c : setter) (st : state) (this : loc) (s : Style) :
  heap st !! this = Some (OStyle s) ->
  exists st' s' new,
    apply_setter this c st = Ok tt st'
    /\ heap st' = <[this := OStyle s']> (heap st) ++ new
    /\ defaultStyles st' = defaultStyles st
    /\ field_value (field_of c) s' = argument_of c
    /\ (forall f, f <> field_of c -> field_value f s' = field_value f s)
    /\ (field_of c <> FGeometry ->
        geometryFunction_ s' = geometryFunction_ s /\ new = []).
Proof.
  intros H.
  destruct c as [v|v|v|v|v|v|v];
    try (cbn [apply_setter];
         unfold setRenderer, setFill, setImage, setStroke, setText, setZIndex;
         rewrite (write_Style_ok _ _ _ _ H);
         eexists _, _, []; split; [reflexivity |];
         split; [cbn; by rewrite app_nil_r |];
         split; [reflexivity |]; split; [reflexivity |];
         split; [by intros [] | done]).
  cbn [apply_setter].
  destruct (setGeometry_result st this s v H)
    as (st' & f & new & Heq & _ & Hh & Hd & _).
  exists st', (with_geometry_ v (with_geometryFunction_ f s)), new.
  split; [done |]. split; [done |]. split; [done |].
  split; [reflexivity |]. split; [by intros [] | done].
Qed.

(** X1: every setter is read back by its getter.  On a Style instance any
    of setRenderer, setGeometry, setFill, setImage, setStroke, setText and
    setZIndex succeeds; afterwards the getter of the same field returns the
    very value that was passed, the getters of all other fields return what
    they returned before, getGeometryFunction is unchanged unless the setter
    was setGeometry, every other object that existed is untouched and the
    cache of default styles is not affected. *)
Theorem setter_getter_round_trip (c : setter) (st : state) (this : loc)
        (s : Style) :
  heap st !! this = Some (OStyle s) ->
  exists st',
    apply_setter this c st = Ok tt st'
    /\ get_field (field_of c) this st' = Ok (argument_of c) st'
    /\ (forall f, f <> field_of c ->
        exists v, get_field f this st = Ok v st
                  /\ get_field f this st' = Ok v st')
    /\ (field_of c <> FGeometry ->
        exists g, getGeometryFunction this st = Ok g st
                  /\ getGeometryFunction this st' = Ok g st')
    /\ (forall l o, l <> this -> heap st !! l = Some o ->
                    heap st' !! l = Some o)
    /\ defaultStyles st' = defaultStyles st.
Proof.
  intros H.
  destruct (apply_setter_result c st this s H)
    as (st' & s' & new & Heq & Hh & Hd & Hset & Hkeep & Hgf).
  assert (heap st' !! this = Some (OStyle s')) as Hs'
      by (rewrite Hh; by eapply lookup_rewritten).
  exists st'. split; [done |].
  split; [by rewrite (get_field_ok _ _ _ _ Hs'), Hset |].
  split.
  { intros f Hf. exists (field_value f s).
    split; [by apply get_field_ok |].
    by rewrite (get_field_ok _ _ _ _ Hs'), Hkeep. }
  split.
  { intros Hg. destruct (Hgf Hg) as [Hsame _].
    exists (geometryFunction_ s).
    split; [by apply getGeometryFunction_ok |].
    by rewrite (getGeometryFunction_ok _ _ _ Hs'), Hsame. }
  split; [| done].
  intros l o Hne Hl. rewrite Hh. by eapply lookup_kept.
Qed.

Lemma setter_getter_round_trip_witness :
  exists st',
    apply_setter 7 (SetFill (VRef 3)) st_styled = Ok tt st'
    /\ getFill 7 st' = Ok (VRef 3) st'
    /\ getStroke 7 st' = Ok (VRef 3) st'.
Proof.
  destruct (setter_getter_round_trip (SetFill (VRef 3)) st_styled 7 _ eq_refl)
    as (st' & H1 & H2 & H3 & _).
  exists st'. split; [exact H1 |]. split; [exact H2 |].
  destruct (H3 FStroke) as (v & Hv & Hv'); [discriminate |].
  cbn in Hv. injection Hv as <-. exact Hv'.
Defined.

Lemma write_Style_fail (st : state) (this : loc) (f : Style -> Style) :
  (forall s, heap st !! this <> Some (OStyle s)) ->
  write_Style this f st = Throw TypeError st.
Proof.
  intros H. unfold write_Style, read_Style. cbn.
  destruct (heap st !! this) as [[]|] eqn:E; try done. by destruct (H s).
Qed.

(** X2: setters of two different fields, neither of them setGeometry, can
    be called in either order: the resulting state is the same. *)
Theorem plain_setters_commute (c1 c2 : setter) (st : state) (this : loc) :
  field_of c1 <> FGeometry -> field_of c2 <> FGeometry ->
  field_of c1 <> field_of c2 ->
  (apply_setter this c1 ;;; apply_setter this c2) st
  = (apply_setter this c2 ;;; apply_setter this c1) st.
Proof.
  intros H1 H2 Hne. cbn [bind].
  assert ((exists s, heap st !! this = Some (OStyle s))
          \/ (forall s, heap st !! this <> Some (OStyle s))) as [[s E]|Hn].
  { destruct (heap st !! this) as [[]|]; eauto; right; intros s0; congruence. }
  2: { destruct c1, c2; try done; cbn [apply_setter];
       unfold setRenderer, setFill, setImage, setStroke, setText, setZIndex;
       by rewrite !write_Style_fail. }
  assert (forall f g,
             match write_Style this f st with
             | Ok _ st' => write_Style this g st'
             | Throw e st' => Throw e st'
             end
             = Ok tt (mkState (<[this := OStyle (g (f s))]> (heap st))
                              (defaultStyles st))) as Hw.
  { intros f g. rewrite (write_Style_ok _ _ _ _ E).
    erewrite write_Style_ok;
      [| cbn; apply list_lookup_insert_eq; by eapply lookup_lt_Some].
    cbn. by rewrite list_insert_insert_eq. }
  destruct c1, c2; try done; cbn [apply_setter];
    unfold setRenderer, setFill, setImage, setStroke, setText, setZIndex;
    by rewrite !Hw.
Qed.

Lemma plain_setters_commute_witness :
  (apply_setter 7 (SetFill VNull) ;;; apply_setter 7 (SetZIndex (VNumber 9)))
    st_styled
  = (apply_setter 7 (SetZIndex (VNumber 9)) ;;; apply_setter 7 (SetFill VNull))
      st_styled.
Proof.
  apply plain_setters_commute; discriminate.
Defined.

(** * The constructor *)

(** X3: the constructor never fails and returns a reference that did not
    exist before, leaving all existing objects as they were.  On the new
    instance getRenderer, getGeometry, getFill, getImage, getStroke and
    getText return the matching option, or null when the option is
    undefined or no options are given; getZIndex returns the zIndex option
    as it is, so undefined stays undefined. *)
Theorem constructor_getters (opt_options : option StyleOptions.t)
        (st : state) :
  exists l st',
    Style_new opt_options st = Ok (VRef l) st'
    /\ heap st !! l = None
    /\ extends st st'
    /\ (forall f, f <> FZIndex ->
        get_field f l st'
        = Ok (or_null (option_of f (default StyleOptions.empty opt_options)))
             st')
    /\ getZIndex l st'
       = Ok (StyleOptions.zIndex (default StyleOptions.empty opt_options)) st'.
Proof.
  destruct (Style_new_spec opt_options st) as (fn & new & Heq & _).
  cbn zeta in Heq. exists (length (heap st)). eexists.
  split; [exact Heq |].
  split; [by apply lookup_ge_None_2 |].
  split; [apply extends_app |].
  set (st' := mkState _ _).
  assert (heap st' !! length (heap st)
          = Some (OStyle (Style_built
                            (default StyleOptions.empty opt_options) fn)))
    as Hs by (by apply list_lookup_middle).
  split.
  - intros f Hf. rewrite (get_field_ok _ _ _ _ Hs). by destruct f.
  - exact (get_field_ok FZIndex _ _ _ Hs).
Qed.

Lemma derived_functional (h h' : list obj) (x f f' : value)
      (new new' : list obj) :
  length h = length h' -> typeof_in h x = typeof_in h' x ->
  derived h x f new -> derived h' x f' new' -> f = f' /\ new = new'.
Proof.
  intros Hlen Ht D D'.
  destruct D as [Hf|name ->|Hnf Hns Hx|Hnf Hns Hx];
    destruct D' as [Hf'|name' Hn'|Hnf' Hns' Hx'|Hnf' Hns' Hx'];
    try done; try congruence; try (by rewrite Hlen);
    try (subst; cbn in *; congruence).
Qed.

Lemma typeof_in_same_length (h : list obj) (s s' : Style) (x : value) :
  typeof_in (h ++ [OStyle s]) x = typeof_in (h ++ [OStyle s']) x.
Proof.
  destruct x as [| | | | |l]; try done. cbn.
  destruct (decide (l < length h)) as [Hlt|Hge].
  - by rewrite !lookup_app_l.
  - destruct (decide (l = length h)) as [->|Hne].
    + by rewrite !list_lookup_middle.
    + rewrite !lookup_ge_None_2; [done | |]; rewrite length_app; cbn; lia.
Qed.

(** X4: constructing with a geometry option that is not undefined is the
    same as constructing without that key and then calling setGeometry on
    the new instance with the option: same reference, same heap. *)
Theorem constructor_geometry_option (options : StyleOptions.t) (st : state) :
  StyleOptions.geometry options <> VUndefined ->
  Style_new (Some options) st
  = (r <- Style_new (Some (without_geometry options)) ;;
     match r with
     | VRef this => setGeometry this (StyleOptions.geometry options)
     | _ => throw TypeError
     end ;;;
     ret r) st.
Proof.
  intros Hg.
  assert (is_undefined (StyleOptions.geometry options) = false) as Hu
      by (by destruct (StyleOptions.geometry options)).
  destruct (Style_new_spec (Some options) st) as (f & new & Heq & D).
  cbn zeta in Heq, D. cbn [default id from_option] in Heq, D.
  rewrite Hu in D.
  rewrite Heq. clear Heq.
  cbn [bind]. rewrite Style_new_plain by reflexivity.
  set (sb := Style_built (without_geometry options)
                         (VRef defaultGeometryFunction)).
  destruct (setGeometry_spec
              (mkState (heap st ++ [OStyle sb]) (defaultStyles st))
              (length (heap st)) sb (StyleOptions.geometry options))
    as (f' & new' & Heq' & D'); [by apply list_lookup_middle |].
  rewrite Heq'. cbn [heap defaultStyles ret].
  cbn [heap] in D'.
  assert (length (heap st ++ [OStyle Style_started])
          = length (heap st ++ [OStyle sb])) as Hlen
      by (by rewrite !length_app).
  destruct (derived_functional _ _ _ _ _ _ _ Hlen
              (typeof_in_same_length (heap st) Style_started sb _) D D')
    as [<- <-].
  rewrite insert_at_end. do 3 f_equal.
  unfold Style_built, or_null. rewrite Hu. reflexivity.
Qed.

Lemma constructor_geometry_option_witness :
  exists st',
    Style_new (Some (StyleOptions.mk (VString "labelPoint") VUndefined
                       VUndefined VUndefined VUndefined VUndefined
                       (VNumber 2))) module_init
    = Ok (VRef 1) st'
    /\ getGeometry 1 st' = Ok (VString "labelPoint") st'.
Proof.
  eexists. split.
  - rewrite constructor_geometry_option by discriminate.
    vm_compute. reflexivity.
  - vm_compute. reflexivity.
Defined.

(** * toFunction, once more *)

Lemma toFunction_returns_function (st st' : state) (obj f : value) :
  toFunction obj st = Ok f st' ->
  typeof_in (heap st') f = "function" /\ extends st st'.
Proof.
  intros H.
  destruct (String.eqb (typeof_in (heap st) obj) "function") eqn:Ef.
  { apply String.eqb_eq in Ef. rewrite (toFunction_function _ _ Ef) in H.
    injection H as <- <-. split; [done | apply extends_refl]. }
  apply String.eqb_neq in Ef.
  destruct (lookup_obj (heap st) obj)
    as [[c|es|?|s|?|? ?|? ? ?|?|? ?|? ?]|] eqn:E;
    try (rewrite toFunction_other in H;
         [discriminate | done | intros ?; congruence | intros ?; congruence]).
  - destruct obj as [| | | | |l]; try discriminate. cbn in E.
    rewrite (toFunction_array _ _ _ E) in H. injection H as <- <-.
    split; [| apply extends_app].
    apply typeof_function. eexists _, _. split; [done |].
    by apply list_lookup_middle.
  - destruct obj as [| | | | |l]; try discriminate. cbn in E.
    rewrite (toFunction_Style _ _ _ E) in H. injection H as <- <-.
    split; [| apply extends_app].
    apply typeof_function. eexists _, _. split; [done |].
    cbn. by rewrite lookup_ext.
Qed.

(** X5: toFunction is idempotent.  Whatever it returns is a function, so
    passing the result to toFunction again gives it back unchanged and
    allocates nothing. *)
Theorem toFunction_idempotent (st st' : state) (obj f : value) :
  toFunction obj st = Ok f st' ->
  toFunction f st' = Ok f st'.
Proof.
  intros H. apply toFunction_function.
  by apply (toFunction_returns_function st st' obj f).
Qed.

Lemma toFunction_idempotent_witness :
  exists f st', toFunction (VRef 7) st_styled = Ok f st'
                /\ toFunction f st' = Ok f st'.
Proof.
  eexists _, _. split; [vm_compute; reflexivity |].
  apply (toFunction_idempotent st_styled _ (VRef 7)).
  vm_compute. reflexivity.
Defined.

(** X6: toFunction wraps a single Style afresh on every call.  Two calls
    on the same instance return two different functions, and these return
    two different arrays, both new and both holding just that instance;
    nothing that existed before is changed. *)
Theorem toFunction_allocates_each_time
        (native : nat -> list value -> M value)
        (st : state) (l : loc) (s : Style) :
  heap st !! l = Some (OStyle s) ->
  exists f1 f2 a1 a2 st1 st2,
    toFunction (VRef l) st = Ok (VRef f1) st1
    /\ toFunction (VRef l) st1 = Ok (VRef f2) st2
    /\ f1 <> f2 /\ a1 <> a2
    /\ heap st !! a1 = None /\ heap st1 !! a2 = None
    /\ (forall args, call native (VRef f1) args st2 = Ok (VRef a1) st2)
    /\ (forall args, call native (VRef f2) args st2 = Ok (VRef a2) st2)
    /\ heap st2 !! a1 = Some (OArray [VRef l])
    /\ heap st2 !! a2 = Some (OArray [VRef l])
    /\ extends st st2.
Proof.
  intros H.
  pose proof (toFunction_Style _ _ _ H) as T1.
  set (st1 := mkState _ _) in T1.
  assert (heap st1 !! l = Some (OStyle s)) as H1
      by (cbn; rewrite lookup_app_l; [done | by eapply lookup_lt_Some]).
  pose proof (toFunction_Style _ _ _ H1) as T2.
  set (st2 := mkState _ _) in T2.
  assert (length (heap st1) = length (heap st) + 2) as Hlen
      by (cbn; rewrite length_app; cbn; lia).
  assert (extends st st1) as E1 by apply extends_app.
  assert (extends st1 st2) as E2 by apply extends_app.
  assert (heap st1 !! length (heap st) = Some (OArray [VRef l])) as Ha1
      by (by apply list_lookup_middle).
  assert (heap st1 !! (length (heap st) + 1)
          = Some (OFunction (CStyles (VRef (length (heap st)))))) as Hf1
      by (cbn; by rewrite lookup_ext).
  assert (heap st2 !! length (heap st1) = Some (OArray [VRef l])) as Ha2
      by (by apply list_lookup_middle).
  assert (heap st2 !! (length (heap st1) + 1)
          = Some (OFunction (CStyles (VRef (length (heap st1)))))) as Hf2
      by (cbn [heap st2]; by rewrite lookup_ext).
  exists (length (heap st) + 1), (length (heap st1) + 1),
    (length (heap st)), (length (heap st1)), st1, st2.
  split; [done |]. split; [done |].
  split; [lia |]. split; [lia |].
  split; [by apply lookup_ge_None_2 |].
  split; [by apply lookup_ge_None_2 |].
  split.
  { intros args.
    by rewrite (call_function native _ _ _ args
                  (extends_lookup _ _ _ _ E2 Hf1)). }
  split; [intros args; by rewrite (call_function native _ _ _ args Hf2) |].
  split; [by apply (extends_lookup _ _ _ _ E2) |].
  split; [done |].
  by eapply extends_trans.
Qed.

Lemma toFunction_allocates_each_time_witness :
  exists f1 f2 st1 st2,
    toFunction (VRef 7) st_styled = Ok (VRef f1) st1
    /\ toFunction (VRef 7) st1 = Ok (VRef f2) st2
    /\ f1 <> f2.
Proof.
  destruct (toFunction_allocates_each_time
              (fun _ _ => ret VUndefined) st_styled 7 _ eq_refl)
    as (f1 & f2 & a1 & a2 & st1 & st2 & H1 & H2 & H3 & _).
  by exists f1, f2, st1, st2.
Defined.

(** X7: toFunction fails in one way only.  Either it returns a function,
    nothing that existed is changed, and the argument was a function, an
    array or a Style instance; or the argument is none of these, and the
    call fails with assertion 41 and leaves the state as it was. *)
Theorem toFunction_fails_only_by_assertion (st : state) (obj : value) :
  (exists f st',
      toFunction obj st = Ok f st'
      /\ typeof_in (heap st') f = "function"
      /\ extends st st'
      /\ (typeof_in (heap st) obj = "function"
          \/ (exists es, lookup_obj (heap st) obj = Some (OArray es))
          \/ (exists s, lookup_obj (heap st) obj = Some (OStyle s))))
  \/ (toFunction obj st = Throw (AssertionError 41) st
      /\ typeof_in (heap st) obj <> "function"
      /\ (forall es, lookup_obj (heap st) obj <> Some (OArray es))
      /\ (forall s, lookup_obj (heap st) obj <> Some (OStyle s))).
Proof.
  destruct (String.eqb (typeof_in (heap st) obj) "function") eqn:Ef.
  { apply String.eqb_eq in Ef. left. exists obj, st.
    split; [by apply toFunction_function |].
    split; [done |]. split; [apply extends_refl | by left]. }
  apply String.eqb_neq in Ef.
  destruct (lookup_obj (heap st) obj)
    as [[c|es|?|s|?|? ?|? ? ?|?|? ?|? ?]|] eqn:E.
  2: { destruct obj as [| | | | |l]; try discriminate. cbn in E.
       pose proof (toFunction_array _ _ _ E) as H.
       destruct (toFunction_returns_function _ _ _ _ H) as [Ht Hx].
       left. eexists _, _. split; [exact H |].
       split; [exact Ht |]. split; [exact Hx |].
       right; left. cbn. eauto. }
  3: { destruct obj as [| | | | |l]; try discriminate. cbn in E.
       pose proof (toFunction_Style _ _ _ E) as H.
       destruct (toFunction_returns_function _ _ _ _ H) as [Ht Hx].
       left. eexists _, _. split; [exact H |].
       split; [exact Ht |]. split; [exact Hx |].
       right; right. cbn. eauto. }
  all: right; split; [| split; [done | split; intros ?; congruence]].
  all: apply toFunction_other; [done | intros ?; congruence ..].
Qed.

(** * Cloning, once more *)

Lemma invoke_clone_no_method (fuel : nat) (v : value) (st : state) :
  exposes_clone (heap st) v = false ->
  invoke_clone (S fuel) v st = Throw TypeError st.
Proof.
  unfold exposes_clone. cbn [invoke_clone bind get_heap].
  destruct v as [| | | | |l]; try done. cbn [lookup_obj].
  destruct (heap st !! l) as [[| | | | | | | |[]|]|]; done.
Qed.

(** X8: clone calls the clone method of each part that is set without
    testing that the method exists.  When the geometry is not cloned and
    the first truthy one among fill, image, stroke and text has no clone
    method, clone fails with a TypeError and the state is as it was. *)
Theorem clone_part_without_clone (fuel : nat) (st : state) (this : loc)
        (s : Style) (before after : list value) (v : value) :
  heap st !! this = Some (OStyle s) ->
  truthy (geometry_ s) && exposes_clone (heap st) (geometry_ s) = false ->
  [fill_ s; image_ s; stroke_ s; text_ s] = before ++ v :: after ->
  Forall (fun x => truthy x = false) before ->
  truthy v = true ->
  exposes_clone (heap st) v = false ->
  clone (S fuel) this st = Throw TypeError st.
Proof.
  intros Hs Hg Hparts Hbefore Hv Hx.
  unfold clone.
  rewrite (Style_clone_with_parts _ _ _ _ (invoke_clone_contract (S fuel)) Hs).
  unfold clone_parts. cbn [bind get_heap]. rewrite Hg. cbn [ret].
  assert (clone_present (invoke_clone (S fuel)) v st = Throw TypeError st)
    as Hthrow.
  { unfold clone_present. rewrite Hv. by apply invoke_clone_no_method. }
  assert (forall x, truthy x = false ->
                    clone_present (invoke_clone (S fuel)) x st
                    = Ok VUndefined st) as Hskip.
  { intros x Hf. unfold clone_present. by rewrite Hf. }
  destruct before as [|b1 [|b2 [|b3 [|b4 before]]]];
    injection Hparts as Hparts; subst;
    repeat match goal with
           | H : Forall _ (_ :: _) |- _ => apply Forall_cons in H as [? H]
           end.
  - by rewrite Hthrow.
  - rewrite Hskip by done. by rewrite Hthrow.
  - rewrite !Hskip by done. by rewrite Hthrow.
  - rewrite !Hskip by done. by rewrite Hthrow.
  - by destruct before.
Qed.

Lemma clone_part_without_clone_witness :
  clone 1 1 st_unclonable = Throw TypeError st_unclonable.
Proof.
  apply (clone_part_without_clone
           0 st_unclonable 1
           (mkStyle VNull (VRef 0) VNull (VRef 2) VNull VNull VNull VUndefined)
           [VNull] [VNull; VNull] (VRef 2));
    try reflexivity.
  by repeat constructor.
Defined.

(** X9: a clone is a separate instance.  Whenever clone returns, it
    returns a reference different from the receiver; any setter then
    succeeds on the clone and is read back there, while every getter of the
    original, and its getGeometryFunction, return what they returned before
    clone.  And clone returns on every well-formed instance. *)
Theorem clone_then_set_keeps_original (st : state) (this : loc) (s : Style)
        (c : setter) :
  heap st !! this = Some (OStyle s) ->
  (forall fuel r st',
      clone fuel this st = Ok r st' ->
      exists l' st'',
        r = VRef l' /\ l' <> this
        /\ apply_setter l' c st' = Ok tt st''
        /\ get_field (field_of c) l' st'' = Ok (argument_of c) st''
        /\ (forall f, exists v, get_field f this st = Ok v st
                                /\ get_field f this st'' = Ok v st'')
        /\ exists g, getGeometryFunction this st = Ok g st
                     /\ getGeometryFunction this st'' = Ok g st'')
  /\ (well_formed (heap st) s = true ->
      forall fuel, exists r st', clone (S (S fuel)) this st = Ok (VRef r) st').
Proof.
  intros Hs. split.
  2: { intros Hw fuel.
       destruct (clone_result fuel st this s Hs Hw) as (r & s' & st' & H & _).
       by exists r, st'. }
  intros fuel r st' H.
  destruct (clone_returns_descriptor fuel st this s r st' Hs H)
    as (E & l' & s' & -> & Hlen & Hs' & _).
  assert (l' <> this) as Hne by (apply lookup_lt_Some in Hs; lia).
  destruct (apply_setter_result c st' l' s' Hs')
    as (st'' & s'' & new & Heq & Hh & _ & Hset & _).
  assert (heap st'' !! l' = Some (OStyle s'')) as Hl'
      by (rewrite Hh; by eapply lookup_rewritten).
  assert (heap st'' !! this = Some (OStyle s)) as Hthis.
  { rewrite Hh. eapply lookup_kept; [done |].
    by eapply extends_lookup. }
  exists l', st''. split; [done |]. split; [done |]. split; [done |].
  split; [by rewrite (get_field_ok _ _ _ _ Hl'), Hset |].
  split.
  - intros f. exists (field_value f s).
    split; by apply get_field_ok.
  - exists (geometryFunction_ s). split; by apply getGeometryFunction_ok.
Qed.

Lemma clone_then_set_keeps_original_witness :
  exists l' st' st'',
    clone 2 7 st_styled = Ok (VRef l') st'
    /\ apply_setter l' (SetFill VNull) st' = Ok tt st''
    /\ getFill l' st'' = Ok VNull st''
    /\ getFill 7 st'' = Ok (VRef 2) st''.
Proof.
  destruct (clone_then_set_keeps_original st_styled 7 _ (SetFill VNull)
              eq_refl) as [Hp Hr].
  destruct (Hr eq_refl 0) as (r & st' & Hc).
  destruct (Hp 2 _ _ Hc) as (l' & st'' & [= <-] & _ & H1 & H2 & H3 & _).
  exists r, st', st''. split; [exact Hc |]. split; [exact H1 |].
  split; [exact H2 |].
  destruct (H3 FFill) as (v & Hv & Hv'). cbn in Hv. injection Hv as <-.
  exact Hv'.
Defined.

Lemma clone_parts_resolver (clone_of : value -> M value) (s : Style)
      (st st' : state) (r : value) :
  clone_contract clone_of ->
  clone_parts clone_of s st = Ok r st' ->
  exists g' s1 s5 s' new,
    (if truthy (geometry_ s) && exposes_clone (heap st) (geometry_ s)
     then clone_of (geometry_ s) st = Ok g' s1
     else g' = geometry_ s /\ s1 = st)
    /\ extends st s1 /\ extends s1 s5
    /\ r = VRef (length (heap s5))
    /\ heap st' = heap s5 ++ OStyle s' :: new
    /\ geometry_ s' = or_null g'
    /\ (if is_undefined g'
        then geometryFunction_ s' = VRef defaultGeometryFunction /\ new = []
        else derived (heap s5 ++ [OStyle Style_started]) g'
                     (geometryFunction_ s') new).
Proof.
  intros Hc H. unfold clone_parts in H.
  apply bind_Ok in H as (h & st0 & H0 & H). cbn in H0. injection H0 as <- <-.
  apply bind_Ok in H as (g' & s1 & Hg & H).
  apply bind_Ok in H as (f' & s2 & Hf & H).
  apply bind_Ok in H as (i' & s3 & Hi & H).
  apply bind_Ok in H as (k' & s4 & Hk & H).
  apply bind_Ok in H as (t' & s5 & Ht & H).
  match type of H with
  | Style_new ?o s5 = _ =>
      destruct (Style_new_spec o s5) as (fn & new & Hnew & D)
  end.
  cbn zeta in Hnew, D. cbn [default id from_option] in Hnew, D.
  rewrite Hnew in H. injection H as <- <-.
  cbn [StyleOptions.geometry] in D.
  pose proof (clone_present_extends _ _ _ _ _ Hc Hf) as E2.
  pose proof (clone_present_extends _ _ _ _ _ Hc Hi) as E3.
  pose proof (clone_present_extends _ _ _ _ _ Hc Hk) as E4.
  pose proof (clone_present_extends _ _ _ _ _ Hc Ht) as E5.
  eexists g', s1, s5, _, new.
  split.
  { destruct (_ && _); [done |]. by injection Hg as <- <-. }
  split.
  { destruct (_ && _); [by apply Hc in Hg as [? _] |].
    injection Hg as _ <-. apply extends_refl. }
  split.
  { eapply extends_trans; [exact E2 |]. eapply extends_trans; [exact E3 |].
    eapply extends_trans; [exact E4 | exact E5]. }
  split; [reflexivity |]. split; [reflexivity |]. split; [reflexivity |].
  exact D.
Qed.

Lemma exposes_clone_not_function (h : list obj) (l : loc) (o o' : obj) :
  h !! l = Some o -> exposes_clone h (VRef l) = true -> copy_of o o' ->
  forall c, o' <> OFunction c.
Proof.
  unfold exposes_clone. cbn. intros -> He Hc c ->.
  destruct o; try done.
Qed.

(** X10: clone does not copy the geometry function, it derives it again
    from the geometry.  For a function the clone has that function as both
    geometry and geometry function; for a property name the clone's
    resolver reads that property of the feature; for a falsy geometry that
    is not a string the clone has the default resolver, which returns the
    feature's geometry; for a geometry object with a clone method the clone
    holds a different geometry, and its resolver returns that one.  This
    holds whenever clone returns, and clone returns on every well-formed
    instance. *)
Theorem clone_rederives_resolver
        (native : nat -> list value -> M value)
        (st : state) (this : loc) (s : Style) :
  loaded st ->
  heap st !! this = Some (OStyle s) ->
  (forall fuel r st',
      clone fuel this st = Ok r st' ->
      exists l' s',
        r = VRef l'
        /\ heap st' !! l' = Some (OStyle s')
        /\ (typeof_in (heap st) (geometry_ s) = "function" ->
            geometry_ s' = geometry_ s /\ geometryFunction_ s' = geometry_ s)
        /\ (forall name, geometry_ s = VString name ->
            geometry_ s' = VString name
            /\ forall args,
                call native (geometryFunction_ s') args st'
                = Feature_get (arg 0 args) (VString name) st')
        /\ (truthy (geometry_ s) = false ->
            (forall name, geometry_ s <> VString name) ->
            geometryFunction_ s' = VRef defaultGeometryFunction
            /\ forall args,
                call native (geometryFunction_ s') args st'
                = Feature_getGeometry (arg 0 args) st')
        /\ (truthy (geometry_ s) && exposes_clone (heap st) (geometry_ s)
            = true ->
            geometry_ s' <> geometry_ s
            /\ forall args,
                call native (geometryFunction_ s') args st'
                = Ok (geometry_ s') st'))
  /\ (well_formed (heap st) s = true ->
      forall fuel, exists r st', clone (S (S fuel)) this st = Ok (VRef r) st').
Proof.
  intros Hl Hs. split.
  2: { intros Hw fuel.
       destruct (clone_result fuel st this s Hs Hw) as (r & s' & st' & H & _).
       by exists r, st'. }
  intros fuel r st' H. pose proof (invoke_clone_contract fuel) as Hc.
  unfold clone in H. rewrite (Style_clone_with_parts _ _ _ _ Hc Hs) in H.
  destruct (clone_parts_resolver _ _ _ _ _ Hc H)
    as (g' & s1 & s5 & s' & new & Hg & E1 & E15 & -> & Hh & Hgeo & D).
  assert (extends st s5) as E by (by eapply extends_trans).
  assert (forall l o, heap st !! l = Some o -> heap st' !! l = Some o) as Hup.
  { intros l o Ho. rewrite Hh.
    rewrite lookup_app_l;
      [by eapply extends_lookup |].
    eapply lookup_lt_Some. by eapply extends_lookup. }
  assert (forall l o, heap s5 !! l = Some o ->
                      (heap s5 ++ [OStyle Style_started]) !! l = Some o)
    as Hmid.
  { intros l o Ho. rewrite lookup_app_l; [done | by eapply lookup_lt_Some]. }
  assert (forall c, new = [OFunction c] ->
                    heap st' !! length (heap s5 ++ [OStyle Style_started])
                    = Some (OFunction c)) as Hnewf.
  { intros c ->. rewrite Hh, length_app. cbn [length].
    by rewrite lookup_ext. }
  exists (length (heap s5)), s'. split; [done |].
  split; [rewrite Hh; by apply list_lookup_middle |].
  split; [| split; [| split]].
  - intros Hf. apply typeof_function in Hf as (lf & c & Hgs & Hlf).
    rewrite Hgs in *.
    assert (exposes_clone (heap st) (VRef lf) = false) as Hx
        by (unfold exposes_clone; cbn; by rewrite Hlf).
    rewrite Hx in Hg. cbn in Hg. destruct Hg as [-> ->].
    split; [done |]. cbn in D.
    assert (typeof_in (heap s5 ++ [OStyle Style_started]) (VRef lf)
            = "function") as Ht.
    { apply typeof_function. exists lf, c. split; [done |].
      apply Hmid. by eapply extends_lookup. }
    destruct D as [_|name Hn|Hnf _ _|Hnf _ _]; done.
  - intros name Hn. rewrite Hn in *. cbn in Hg.
    rewrite andb_false_r in Hg. destruct Hg as [-> ->].
    split; [done |]. cbn in D. intros args.
    destruct D as [Hf|name' _|_ Hns _|_ Hns _]; try done.
    by rewrite (call_function native _ _ _ args (Hnewf _ eq_refl)).
  - intros Ht Hns. rewrite Ht in Hg. cbn in Hg. destruct Hg as [-> ->].
    assert (geometryFunction_ s' = VRef defaultGeometryFunction) as Hgf.
    { destruct (is_undefined (geometry_ s)); [by destruct D |].
      destruct D as [Hf|name Hn|_ _ _|_ _ Ht']; try done; try congruence.
      apply typeof_function in Hf as (l & c & Hgs & _).
      rewrite Hgs in Ht. discriminate. }
    split; [done |]. intros args. rewrite Hgf.
    by rewrite (call_function native _ _ _ args (Hup _ _ Hl)).
  - intros Hx. rewrite Hx in Hg.
    apply Hc in Hg as (_ & l & l'' & o & o' & Hgs & -> & Ho & Ho' & Hco & Hlen).
    rewrite Hgs in *. cbn in Hgeo. rewrite Hgeo.
    split; [intros [= ->]; apply lookup_lt_Some in Ho; lia |].
    apply andb_prop in Hx as [_ Hx]. cbn in D.
    assert (typeof_in (heap s5 ++ [OStyle Style_started]) (VRef l'')
            = "object") as Ht.
    { cbn. rewrite (Hmid _ _ (extends_lookup _ _ _ _ E15 Ho')).
      pose proof (exposes_clone_not_function _ _ _ _ Ho Hx Hco) as Hnf.
      destruct o'; try done. by destruct (Hnf c). }
    intros args.
    destruct D as [Hf|name Hn|_ _ Hf|_ _ _]; try done; try congruence.
    by rewrite (call_function native _ _ _ args (Hnewf _ eq_refl)).
Qed.

Lemma clone_rederives_resolver_witness :
  exists l' s' st',
    clone 2 7 st_styled = Ok (VRef l') st'
    /\ heap st' !! l' = Some (OStyle s')
    /\ geometry_ s' <> VRef 1
    /\ call (fun _ _ => ret VUndefined) (geometryFunction_ s') [VRef 0] st'
       = Ok (geometry_ s') st'.
Proof.
  destruct (clone_rederives_resolver
              (fun _ _ => ret VUndefined) st_styled 7 _ eq_refl eq_refl)
    as [Hp Hr].
  destruct (Hr eq_refl 0) as (r & st' & Hc).
  destruct (Hp 2 _ _ Hc) as (l' & s' & [= <-] & Hs' & _ & _ & _ & Hcl).
  destruct (Hcl eq_refl) as [Hne Hcall].
  exists r, s', st'. split; [exact Hc |]. split; [exact Hs' |].
  split; [exact Hne | apply Hcall].
Defined.

(** * The factories, once more *)

(** X11: the array of default styles is handed out itself, not a copy.
    After a first createDefaultStyle, a setter called on the Style in the
    returned array is seen by every later createDefaultStyle: it returns
    the same array, holding the same instance, whose getter now returns
    the new value. *)
Theorem createDefaultStyle_cache_is_live (st : state)
        (feature resolution feature' resolution' : value) (c : setter) :
  truthy (defaultStyles st) = false ->
  exists a d st1 st2,
    createDefaultStyle feature resolution st = Ok (VRef a) st1
    /\ heap st1 !! a = Some (OArray [VRef d])
    /\ apply_setter d c st1 = Ok tt st2
    /\ createDefaultStyle feature' resolution' st2 = Ok (VRef a) st2
    /\ heap st2 !! a = Some (OArray [VRef d])
    /\ get_field (field_of c) d st2 = Ok (argument_of c) st2.
Proof.
  intros Hd. destruct st as [h dflt]. cbn in Hd.
  pose proof (createDefaultStyle_first h dflt feature resolution Hd) as H1.
  set (st1 := mkState (h ++ _) _) in H1.
  assert (heap st1 !! (length h + 4) = Some (OArray [VRef (length h + 3)]))
    as Ha by (unfold st1; cbn [heap]; by rewrite lookup_ext).
  assert (exists s, heap st1 !! (length h + 3) = Some (OStyle s)) as [s Hs]
      by (eexists; unfold st1; cbn [heap]; by rewrite lookup_ext).
  destruct (apply_setter_result c st1 _ s Hs)
    as (st2 & s' & new & Heq & Hh & Hdf & Hset & _).
  exists (length h + 4), (length h + 3), st1, st2.
  split; [done |]. split; [done |]. split; [done |].
  assert (heap st2 !! (length h + 3) = Some (OStyle s')) as Hs'
      by (rewrite Hh; by eapply lookup_rewritten).
  assert (heap st2 !! (length h + 4) = Some (OArray [VRef (length h + 3)]))
    as Ha' by (rewrite Hh; eapply lookup_kept; [lia | done]).
  split.
  { destruct st2 as [h2 d2]. cbn in Hdf. subst d2. reflexivity. }
  split; [done |].
  by rewrite (get_field_ok _ _ _ _ Hs'), Hset.
Qed.

Lemma createDefaultStyle_cache_is_live_witness :
  exists a d st1 st2,
    createDefaultStyle VNull VNull module_init = Ok (VRef a) st1
    /\ heap st1 !! a = Some (OArray [VRef d])
    /\ setFill d VNull st1 = Ok tt st2
    /\ createDefaultStyle VNull VNull st2 = Ok (VRef a) st2
    /\ getFill d st2 = Ok VNull st2.
Proof.
  destruct (createDefaultStyle_cache_is_live
              module_init VNull VNull VNull VNull (SetFill VNull) eq_refl)
    as (a & d & st1 & st2 & H1 & H2 & H3 & H4 & _ & H5).
  by exists a, d, st1, st2.
Defined.

(** X12: createEditingStyle has an entry for every geometry type.  For
    each of the eight types the returned object maps the type to a
    non-empty array of Style instances created by this call, each without
    renderer, text and geometry and with the default geometry function;
    nothing that existed is changed. *)
Theorem createEditingStyle_covers_every_type (st : state) (k : GeometryType) :
  exists m props a es st',
    createEditingStyle st = Ok (VRef m) st'
    /\ extends st st'
    /\ heap st' !! m = Some (OObject props)
    /\ props !! k = Some (VRef a)
    /\ heap st' !! a = Some (OArray es)
    /\ es <> []
    /\ Forall (fun v =>
                 exists d s,
                   v = VRef d /\ heap st !! d = None
                   /\ heap st' !! d = Some (OStyle s)
                   /\ renderer_ s = VNull /\ text_ s = VNull
                   /\ geometry_ s = VNull
                   /\ geometryFunction_ s = VRef defaultGeometryFunction) es.
Proof.
  destruct st as [h d]. rewrite createEditingStyle_run.
  assert (forall j, heap {| heap := h; defaultStyles := d |}
                      !! (length h + j) = None) as Hfresh
      by (intros j; apply lookup_ge_None_2; cbn; lia).
  destruct k.
  all: exists (length h); eexists _, (length h + _), _, _.
  all: split; [reflexivity |].
  all: split; [apply extends_app |].
  all: cbn [heap].
  all: split; [rewrite lookup_ext0; reflexivity |].
  all: split; [rewrite mapping_lookup; reflexivity |].
  all: split; [rewrite lookup_ext; reflexivity |].
  all: split; [discriminate |].
  all: repeat (apply Forall_cons; split;
               [eexists _, _; split; [reflexivity |];
                split; [apply Hfresh |];
                split; [rewrite lookup_ext; reflexivity |];
                repeat split |]).
  all: apply Forall_nil_2.
Qed.

(** X13: the arrays of createEditingStyle are shared by reference between
    the types of one family and copied between families.  Pushing onto the
    POLYGON array is seen under MULTI_POLYGON, which names the same array,
    while the CIRCLE array, built from the polygon array by concat, keeps
    its elements. *)
Theorem createEditingStyle_push_is_shared_not_copied (st : state) (x : value) :
  exists m props pg ci e_pg e_ci st1 st2,
    createEditingStyle st = Ok (VRef m) st1
    /\ heap st1 !! m = Some (OObject props)
    /\ props !! POLYGON = Some (VRef pg)
    /\ props !! MULTI_POLYGON = Some (VRef pg)
    /\ props !! CIRCLE = Some (VRef ci)
    /\ heap st1 !! pg = Some (OArray e_pg)
    /\ heap st1 !! ci = Some (OArray e_ci)
    /\ Array_push (VRef pg) x st1 = Ok tt st2
    /\ heap st2 !! m = Some (OObject props)
    /\ heap st2 !! pg = Some (OArray (e_pg ++ [x]))
    /\ heap st2 !! ci = Some (OArray e_ci).
Proof.
  destruct st as [h d].
  pose proof (createEditingStyle_run h d) as H1.
  set (st1 := mkState (h ++ _) _) in H1.
  assert (exists e, heap st1 !! (length h + 6) = Some (OArray e)) as [e_pg Hpg]
      by (eexists; unfold st1; cbn [heap]; by rewrite lookup_ext).
  assert (exists e, heap st1 !! (length h + 12) = Some (OArray e))
    as [e_ci Hci] by (eexists; unfold st1; cbn [heap]; by rewrite lookup_ext).
  assert (exists ps, heap st1 !! length h = Some (OObject ps)
                     /\ ps !! POLYGON = Some (VRef (length h + 6))
                     /\ ps !! MULTI_POLYGON = Some (VRef (length h + 6))
                     /\ ps !! CIRCLE = Some (VRef (length h + 12)))
    as (props & Hm & Hp1 & Hp2 & Hp3).
  { eexists. split; [unfold st1; cbn [heap]; by rewrite lookup_ext0 |].
    split; [| split]; by rewrite mapping_lookup. }
  exists (length h), props, (length h + 6), (length h + 12), e_pg, e_ci, st1.
  eexists.
  split; [done |]. split; [done |]. split; [done |]. split; [done |].
  split; [done |]. split; [done |]. split; [done |].
  split; [by apply Array_push_ok |].
  cbn [heap].
  split; [rewrite list_lookup_insert_ne by lia; exact Hm |].
  split; [apply list_lookup_insert_eq; by eapply lookup_lt_Some |].
  rewrite list_lookup_insert_ne by lia. exact Hci.
Qed.
